(** * AI debate: the turn/stage orchestration engine

    A shallow embedding of the debate store (zustand store [useDebateStore]),
    the debate engine ([getNextTurn], [shouldAdvanceRound], [shouldAdvanceStage],
    [checkConsensus], [buildContextMessages]) and the controller callback
    [DebateView.runTurn], followed by the properties of the protocol.

    Conventions.  A JS [number] is a [Z]; an array is a [list]; [undefined]
    is [None].  A JS string is a [string] holding the UTF-8 bytes of its
    text, which is how the Korean notices below are written.  Concatenation
    and the search for a piece of text are the same on the bytes as on the
    code units of the JS string; what the code measures in code units
    ([s.length], [s.slice(0, n)]) is counted by [js_length] and cut by
    [slice0], one unit for a character of up to three bytes and two for a
    character of four.  An unpaired surrogate, which a JS string may hold,
    stands in the three-byte form of its code unit. *)

From Stdlib Require Import ZArith List String Ascii Bool Lia DecimalString.
Import ListNotations.

#[local] Open Scope string_scope.
#[local] Open Scope list_scope.
#[local] Open Scope Z_scope.

(* ------------------------------------------------------------------ *)
(** ** lib/types.ts *)

Inductive AIModel : Set := gpt | gemini | claude.

Inductive DebateStage : Set :=
| topic_input | model_select | position | cross_exam | common_ground
| consensus | result.

Inductive AIStatus : Set := idle | streaming | complete | error | abstained.

Definition AIModel_eqb (a b : AIModel) : bool :=
  match a, b with
  | gpt, gpt | gemini, gemini | claude, claude => true
  | _, _ => false
  end.

Definition DebateStage_eqb (a b : DebateStage) : bool :=
  match a, b with
  | topic_input, topic_input | model_select, model_select
  | position, position | cross_exam, cross_exam
  | common_ground, common_ground | consensus, consensus
  | result, result => true
  | _, _ => false
  end.

Definition AIStatus_eqb (a b : AIStatus) : bool :=
  match a, b with
  | idle, idle | streaming, streaming | complete, complete
  | error, error | abstained, abstained => true
  | _, _ => false
  end.

(** The string behind each member of the [AIModel] union. *)
Definition model_str (m : AIModel) : string :=
  match m with gpt => "gpt" | gemini => "gemini" | claude => "claude" end.

Module Message.
Record t : Set := mk {
  id : string;
  model : AIModel;
  content : string;
  stage : DebateStage;
  round : Z;
  timestamp : Z
}.
End Message.
Abbreviation Message := Message.t.

Module AIState.
Record t : Set := mk {
  model : AIModel;
  status : AIStatus;
  apiKey : string;
  tokenUsage : Z
}.
End AIState.
Abbreviation AIState := AIState.t.

(** [Record<AIModel, T>]: an object with exactly the three keys. *)
Module PerModel.
Record t (T : Type) : Type := mk { at_gpt : T; at_gemini : T; at_claude : T }.
Arguments mk {T}.
Arguments at_gpt {T}.
Arguments at_gemini {T}.
Arguments at_claude {T}.

(** [r[m]] *)
Definition get {T} (r : t T) (m : AIModel) : T :=
  match m with
  | gpt => at_gpt r | gemini => at_gemini r | claude => at_claude r
  end.

(** [{ ...r, [m]: v }] *)
Definition set {T} (r : t T) (m : AIModel) (v : T) : t T :=
  match m with
  | gpt => mk v (at_gemini r) (at_claude r)
  | gemini => mk (at_gpt r) v (at_claude r)
  | claude => mk (at_gpt r) (at_gemini r) v
  end.
End PerModel.

Module DebateState.
Record t : Type := mk {
  topic : string;
  stage : DebateStage;
  round : Z;
  messages : list Message;
  selectedModels : list AIModel;
  aiStates : PerModel.t AIState;
  isPaused : bool;
  isComplete : bool;
  consensusReached : bool
}.
End DebateState.
Abbreviation DebateState := DebateState.t.

(* ------------------------------------------------------------------ *)
(** ** The fragments of JavaScript the code relies on *)

(** [hay.includes(needle)] on strings. *)
Fixpoint includes (needle hay : string) : bool :=
  String.prefix needle hay
  || match hay with
     | EmptyString => false
     | String _ rest => includes needle rest
     end.

(** The UTF-16 code units that the character starting with byte [c] takes
    in the JS string; a continuation byte is counted with its lead. *)
Definition code_units (c : ascii) : nat :=
  match c with
  | Ascii _ _ _ _ b4 b5 b6 b7 =>
      if negb b7 then 1            (* 0xxxxxxx: ASCII *)
      else if negb b6 then 0       (* 10xxxxxx: continuation *)
      else if b5 && b4 then 2      (* 1111xxxx: four bytes, a surrogate pair *)
      else 1                       (* 110xxxxx, 1110xxxx: two or three bytes *)
  end.

(** [s.length] *)
Fixpoint js_length (s : string) : nat :=
  match s with
  | EmptyString => 0
  | String c rest => (code_units c + js_length rest)%nat
  end.

(** The first code unit of the four-byte character that starts with byte
    [c0] and goes on with [rest]: its high surrogate [110110wwwwzzzzyy], in
    the three bytes an unpaired surrogate takes. *)
Definition high_surrogate (c0 : ascii) (rest : string) : string :=
  let c1 := match rest with String c _ => c | EmptyString => zero end in
  let c2 := match rest with String _ (String c _) => c | _ => zero end in
  match c0, c1, c2 with
  | Ascii a0 a1 a2 _ _ _ _ _, Ascii z0 z1 z2 z3 u0 u1 _ _,
    Ascii _ _ _ _ y4 y5 _ _ =>
      let w := N.pred (N_of_digits [u0; u1; a0; a1; a2]) in
      String (Ascii true false true true false true true true)
        (String (Ascii (N.testbit w 0) (N.testbit w 1) (N.testbit w 2)
                       (N.testbit w 3) false true false true)
           (String (Ascii y4 y5 z0 z1 z2 z3 false true) EmptyString))
  end.

(** [s.slice(0, n)] for a non-negative literal [n]: the first [n] code
    units.  A cut between the two code units of a four-byte character keeps
    the first of them. *)
Fixpoint slice0 (n : nat) (s : string) : string :=
  match s with
  | EmptyString => EmptyString
  | String c rest =>
      if Nat.leb (code_units c) n
      then String c (slice0 (n - code_units c) rest)
      else if Nat.eqb n 1 then high_surrogate c rest
      else EmptyString
  end.

(** [c.toUpperCase()] on one ASCII code unit. *)
Definition upper_ascii (c : ascii) : ascii :=
  let n := nat_of_ascii c in
  if (Nat.leb 97 n && Nat.leb n 122)%bool then ascii_of_nat (n - 32) else c.

Fixpoint toUpperCase (s : string) : string :=
  match s with
  | EmptyString => EmptyString
  | String c rest => String (upper_ascii c) (toUpperCase rest)
  end.

(** Template-literal rendering of a number ([Date.now()] is an integer). *)
Definition string_of_number (z : Z) : string := NilZero.string_of_int (Z.to_int z).

(** Truthiness of an optional string: [undefined] and [''] are falsy. *)
Definition truthy (s : option string) : bool :=
  match s with
  | Some (String _ _) => true
  | _ => false
  end.

(** [l[i]] for an integer index: [undefined] out of range. *)
Definition at_index {A} (l : list A) (i : Z) : option A :=
  if i <? 0 then None else nth_error l (Z.to_nat i).

(** [l[l.length - 1]] *)
Definition last_elem {A} (l : list A) : option A :=
  at_index l (Z.of_nat (List.length l) - 1).

(** [l.slice(-n)]: the last [n] elements, all of them when there are fewer. *)
Definition slice_last {A} (n : nat) (l : list A) : list A :=
  skipn (List.length l - n) l.

(** [l.indexOf(x)], [-1] when absent. *)
Fixpoint indexOf {A} (eqb : A -> A -> bool) (x : A) (l : list A) : Z :=
  match l with
  | [] => -1
  | y :: rest =>
      if eqb y x then 0
      else let i := indexOf eqb x rest in if i <? 0 then -1 else i + 1
  end.

(** [l.findIndex(p)], [-1] when absent. *)
Fixpoint findIndex {A} (p : A -> bool) (l : list A) : Z :=
  match l with
  | [] => -1
  | y :: rest =>
      if p y then 0
      else let i := findIndex p rest in if i <? 0 then -1 else i + 1
  end.

(** [const c = [...l]; c[i] = v] for an index that [findIndex] returned. *)
Fixpoint assign_at {A} (l : list A) (i : nat) (f : A -> A) : list A :=
  match l, i with
  | [], _ => []
  | x :: rest, O => f x :: rest
  | x :: rest, S j => x :: assign_at rest j f
  end.

(* ------------------------------------------------------------------ *)
(** ** store/debate-store.ts *)

Definition createInitialAIState (model : AIModel) : AIState :=
  AIState.mk model idle "" 0.

Definition initialState : DebateState :=
  {| DebateState.topic := "";
     DebateState.stage := topic_input;
     DebateState.round := 0;
     DebateState.messages := [];
     DebateState.selectedModels := [];
     DebateState.aiStates :=
       PerModel.mk (createInitialAIState gpt) (createInitialAIState gemini)
                   (createInitialAIState claude);
     DebateState.isPaused := false;
     DebateState.isComplete := false;
     DebateState.consensusReached := false |}.

(** What [addMessage] is given: [Omit<Message, 'id' | 'timestamp'>]. *)
Module NewMessage.
Record t : Set := mk {
  model : AIModel;
  content : string;
  stage : DebateStage;
  round : Z
}.
End NewMessage.
Abbreviation NewMessage := NewMessage.t.

Module Store.
Import DebateState.

(** zustand's [set(partial)] merges the given fields into the state; each
    helper below is the merge of one field. *)
Definition with_topic (s : DebateState) v :=
  mk v (stage s) (round s) (messages s) (selectedModels s) (aiStates s)
     (isPaused s) (isComplete s) (consensusReached s).
Definition with_stage (s : DebateState) v :=
  mk (topic s) v (round s) (messages s) (selectedModels s) (aiStates s)
     (isPaused s) (isComplete s) (consensusReached s).
Definition with_round (s : DebateState) v :=
  mk (topic s) (stage s) v (messages s) (selectedModels s) (aiStates s)
     (isPaused s) (isComplete s) (consensusReached s).
Definition with_messages (s : DebateState) v :=
  mk (topic s) (stage s) (round s) v (selectedModels s) (aiStates s)
     (isPaused s) (isComplete s) (consensusReached s).
Definition with_selectedModels (s : DebateState) v :=
  mk (topic s) (stage s) (round s) (messages s) v (aiStates s)
     (isPaused s) (isComplete s) (consensusReached s).
Definition with_aiStates (s : DebateState) v :=
  mk (topic s) (stage s) (round s) (messages s) (selectedModels s) v
     (isPaused s) (isComplete s) (consensusReached s).
Definition with_isPaused (s : DebateState) v :=
  mk (topic s) (stage s) (round s) (messages s) (selectedModels s)
     (aiStates s) v (isComplete s) (consensusReached s).

Definition setTopic (topic : string) (s : DebateState) := with_topic s topic.

Definition setStage (stage : DebateStage) (s : DebateState) :=
  with_stage s stage.

Definition setRound (round : Z) (s : DebateState) := with_round s round.

(** [Date.now()] is read twice, once for the id and once for the
    timestamp; the two readings are [now_id] and [now_ts]. *)
Definition addMessage (message : NewMessage) (now_id now_ts : Z)
                      (s : DebateState) : DebateState :=
  with_messages s
    (messages s ++
     [ Message.mk
         (model_str (NewMessage.model message) ++ "-"
            ++ string_of_number now_id)%string
         (NewMessage.model message)
         (NewMessage.content message)
         (NewMessage.stage message)
         (NewMessage.round message)
         now_ts ]).

Definition with_content (m : Message) (content : string) : Message :=
  Message.mk (Message.id m) (Message.model m) content (Message.stage m)
             (Message.round m) (Message.timestamp m).

Definition updateStreamingMessage (model : AIModel) (content : string)
                                  (now_id now_ts : Z)
                                  (s : DebateState) : DebateState :=
  let existingIndex :=
    findIndex (fun m => AIModel_eqb (Message.model m) model
                        && DebateStage_eqb (Message.stage m) (stage s)
                        && (Message.round m =? round s))
              (messages s) in
  if existingIndex =? -1 then
    with_messages s
      (messages s ++
       [ Message.mk (model_str model ++ "-" ++ string_of_number now_id)%string
                    model content (stage s) (round s) now_ts ])
  else
    with_messages s
      (assign_at (messages s) (Z.to_nat existingIndex)
                 (fun m => with_content m content)).

Definition toggleModel (model : AIModel) (s : DebateState) : DebateState :=
  with_selectedModels s
    (if existsb (AIModel_eqb model) (selectedModels s)
     then filter (fun m => negb (AIModel_eqb m model)) (selectedModels s)
     else selectedModels s ++ [model]).

Definition setApiKey (model : AIModel) (key : string) (s : DebateState) :=
  let a := PerModel.get (aiStates s) model in
  with_aiStates s
    (PerModel.set (aiStates s) model
       (AIState.mk (AIState.model a) (AIState.status a) key
                   (AIState.tokenUsage a))).

Definition setAIStatus (model : AIModel) (status : AIStatus)
                       (s : DebateState) :=
  let a := PerModel.get (aiStates s) model in
  with_aiStates s
    (PerModel.set (aiStates s) model
       (AIState.mk (AIState.model a) status (AIState.apiKey a)
                   (AIState.tokenUsage a))).

Definition updateTokenUsage (model : AIModel) (tokens : Z)
                            (s : DebateState) :=
  let a := PerModel.get (aiStates s) model in
  with_aiStates s
    (PerModel.set (aiStates s) model
       (AIState.mk (AIState.model a) (AIState.status a) (AIState.apiKey a)
                   (AIState.tokenUsage a + tokens))).

Definition togglePause (s : DebateState) := with_isPaused s (negb (isPaused s)).

Definition setComplete (consensusReached : bool) (s : DebateState) :=
  mk (topic s) result (round s) (messages s) (selectedModels s) (aiStates s)
     (isPaused s) true consensusReached.

Definition reset (s : DebateState) : DebateState := initialState.

(** The actions of the store, as data. *)
Inductive Action : Type :=
| SetTopic (topic : string)
| SetStage (stage : DebateStage)
| SetRound (round : Z)
| AddMessage (message : NewMessage)
| UpdateStreamingMessage (model : AIModel) (content : string)
| ToggleModel (model : AIModel)
| SetApiKey (model : AIModel) (key : string)
| SetAIStatus (model : AIModel) (status : AIStatus)
| UpdateTokenUsage (model : AIModel) (tokens : Z)
| TogglePause
| SetComplete (consensusReached : bool)
| Reset.

Definition dispatch (a : Action) (now_id now_ts : Z) (s : DebateState)
  : DebateState :=
  match a with
  | SetTopic topic => setTopic topic s
  | SetStage stage => setStage stage s
  | SetRound round => setRound round s
  | AddMessage message => addMessage message now_id now_ts s
  | UpdateStreamingMessage model content =>
      updateStreamingMessage model content now_id now_ts s
  | ToggleModel model => toggleModel model s
  | SetApiKey model key => setApiKey model key s
  | SetAIStatus model status => setAIStatus model status s
  | UpdateTokenUsage model tokens => updateTokenUsage model tokens s
  | TogglePause => togglePause s
  | SetComplete consensusReached => setComplete consensusReached s
  | Reset => reset s
  end.
End Store.

(* ------------------------------------------------------------------ *)
(** ** lib/debate-engine.ts *)

Module DebateConfig.
Record t : Type := mk {
  selectedModels : list AIModel;
  topic : string;
  messages : list Message;
  stage : DebateStage;
  round : Z
}.
End DebateConfig.
Abbreviation DebateConfig := DebateConfig.t.

Inductive Role : Set := user | assistant.

Module ContextMessage.
Record t : Set := mk { role : Role; content : string }.
End ContextMessage.
Abbreviation ContextMessage := ContextMessage.t.

Module TurnResult.
Record t : Type := mk {
  model : AIModel;
  prompt : string;
  systemPrompt : string;
  contextMessages : list ContextMessage
}.
End TurnResult.
Abbreviation TurnResult := TurnResult.t.

Module StageConfig.
Record t : Set := mk { maxRounds : Z; turnsPerRound : Z }.
End StageConfig.

Definition STAGE_CONFIG (stage : DebateStage) : StageConfig.t :=
  match stage with
  | topic_input => StageConfig.mk 0 0
  | model_select => StageConfig.mk 0 0
  | position => StageConfig.mk 1 3
  | cross_exam => StageConfig.mk 4 3
  | common_ground => StageConfig.mk 2 3
  | consensus => StageConfig.mk 15 3
  | result => StageConfig.mk 0 0
  end.

(** The agreement marker. *)
Definition CONSENSUS_MARKER : string := "[CONSENSUS]".

(** [messages.filter((m) => m.stage === stage && m.round === round)] *)
Definition stageMessages (messages : list Message) (stage : DebateStage)
                         (round : Z) : list Message :=
  filter (fun m => DebateStage_eqb (Message.stage m) stage
                   && (Message.round m =? round))
         messages.

Definition shouldAdvanceRound (config : DebateConfig) : bool :=
  let stageMessages :=
    stageMessages (DebateConfig.messages config) (DebateConfig.stage config)
                  (DebateConfig.round config) in
  Nat.leb (List.length (DebateConfig.selectedModels config))
          (List.length stageMessages).

Definition getNextStage (current : DebateStage) : DebateStage :=
  let order := [position; cross_exam; common_ground; consensus; result] in
  let currentIndex := indexOf DebateStage_eqb current order in
  match at_index order (currentIndex + 1) with
  | Some s => s
  | None => result
  end.

Module StageCheck.
Record t : Set := mk { advance : bool; nextStage : option DebateStage }.
End StageCheck.

Definition shouldAdvanceStage (config : DebateConfig) : StageCheck.t :=
  let stageConfig := STAGE_CONFIG (DebateConfig.stage config) in
  if StageConfig.maxRounds stageConfig <=? DebateConfig.round config then
    StageCheck.mk true (Some (getNextStage (DebateConfig.stage config)))
  else StageCheck.mk false None.

Definition MIN_CONSENSUS_ROUND : Z := 3.

Definition checkConsensus (config : DebateConfig) : bool :=
  if negb (DebateStage_eqb (DebateConfig.stage config) consensus) then false
  else if DebateConfig.round config <? MIN_CONSENSUS_ROUND then false
  else
    let consensusMessages :=
      filter (fun m => DebateStage_eqb (Message.stage m) consensus)
             (DebateConfig.messages config) in
    let lastMessages :=
      map (fun model =>
             let modelMessages :=
               filter (fun m => AIModel_eqb (Message.model m) model)
                      consensusMessages in
             last_elem modelMessages)
          (DebateConfig.selectedModels config) in
    forallb (fun m => match m with
                      | Some m => includes CONSENSUS_MARKER (Message.content m)
                      | None => false
                      end)
            lastMessages.

Module ConsensusHint.
Record t : Set := mk { canConsensus : bool; remainingRounds : Z }.
End ConsensusHint.

Definition canReachConsensus (round : Z) : ConsensusHint.t :=
  ConsensusHint.mk (MIN_CONSENSUS_ROUND <=? round)
                   (Z.max 0 (MIN_CONSENSUS_ROUND - round)).

Definition findCurrentConsensus (messages : list Message) : option string :=
  let consensusMessages :=
    filter (fun m => DebateStage_eqb (Message.stage m) consensus
                     && negb (includes CONSENSUS_MARKER
                                       (slice0 500 (Message.content m))))
           messages in
  option_map Message.content (last_elem consensusMessages).

Definition buildContextMessages (messages : list Message)
                                (currentModel : AIModel)
  : list ContextMessage :=
  map (fun m =>
         ContextMessage.mk
           (if AIModel_eqb (Message.model m) currentModel then assistant
            else user)
           ("[" ++ toUpperCase (model_str (Message.model m)) ++ "]: "
                ++ Message.content m)%string)
      (slice_last 5 messages).

Section Engine.

(** lib/prompts.ts builds the instruction texts; the engine only passes
    them on, so the two builders are taken as given. *)
Variable getSystemPrompt : AIModel -> string.
Variable getStagePrompt :
  DebateStage -> string -> list Message -> option string -> Z -> string.

Definition getNextTurn (config : DebateConfig) : option TurnResult :=
  let selectedModels := DebateConfig.selectedModels config in
  let topic := DebateConfig.topic config in
  let messages := DebateConfig.messages config in
  let stage := DebateConfig.stage config in
  let round := DebateConfig.round config in
  if DebateStage_eqb stage result || DebateStage_eqb stage topic_input
     || DebateStage_eqb stage model_select
  then None
  else
    let stageMessages := stageMessages messages stage round in
    let modelsSpokenThisRound := map Message.model stageMessages in
    let nextModel :=
      find (fun m => negb (existsb (AIModel_eqb m) modelsSpokenThisRound))
           selectedModels in
    match nextModel with
    | None => None
    | Some nextModel =>
        let recentMessages := slice_last 5 messages in
        let currentConsensus := findCurrentConsensus messages in
        Some (TurnResult.mk
                nextModel
                (getStagePrompt stage topic recentMessages currentConsensus
                                round)
                (getSystemPrompt nextModel)
                (buildContextMessages messages nextModel))
    end.

End Engine.

(* ------------------------------------------------------------------ *)
(** ** components/DebateView.tsx: the controller callback [runTurn] *)

Module ApiError.
Record t : Set := mk { model : AIModel; message : string }.
End ApiError.

(** The store together with the component's own [useState] cells. *)
Module ViewState.
Record t : Type := mk {
  store : DebateState;
  streamingContent : string;
  currentStreamingModel : option AIModel;
  isRunning : bool;
  retryCount : PerModel.t Z;
  apiError : option ApiError.t
}.
End ViewState.
Abbreviation ViewState := ViewState.t.

(** The body posted to [/api/chat]. *)
Module ChatRequest.
Record t : Type := mk {
  model : AIModel;
  apiKey : string;
  systemPrompt : string;
  messages : list ContextMessage
}.
End ChatRequest.

(** What the outside world answers to one request.  The response body is a
    stream of lines; what the loop does with a line depends only on which of
    the three shapes below it has. *)
Inductive LineEvent : Set :=
| Ignored
    (* no 'data: ' prefix, or the '[DONE]' sentinel *)
| Threw (message : string)
    (* JSON.parse, or reading a property of its result, threw an Error *)
| Parsed (content err : option string).
    (* the parsed object's [content] and [error] properties ([error] as [err]) *)

Inductive Thrown : Set :=
| ErrorObj (message : string)   (* [error instanceof Error] *)
| OtherValue.

Inductive Response : Set :=
| Rejected (e : Thrown)
    (* [fetch] itself failed *)
| NotOk
    (* [!response.ok] *)
| NoReader
    (* [response.body?.getReader()] is undefined *)
| Stream (lines : list LineEvent) (ending : option Thrown).
    (* the lines read, then [done] ([None]) or a failing [read()] *)

Inductive Outcome : Set :=
| Completed (fullContent : string)
| Failed (e : Thrown).

(** Everything [runTurn] does to the world, in program order. *)
Inductive Effect : Type :=
| OnStore (a : Store.Action)
| SetStreamingContent (content : string)
| SetCurrentStreamingModel (model : option AIModel)
| SetIsRunning (b : bool)
| SetRetryCount (model : AIModel) (n : Z)
    (* [setRetryCount((prev) => ({ ...prev, [model]: n }))] *)
| SetApiError (e : ApiError.t)
| Fetch (request : ChatRequest.t).

(** The inner [catch]: an error is re-thrown unless its message is empty or
    mentions JSON. *)
Definition rethrown (message : string) : bool :=
  truthy (Some message) && negb (includes "JSON" message).

(** The [for (const line of lines)] loop over all chunks, started with the
    text accumulated so far. *)
Fixpoint consume (lines : list LineEvent) (fullContent : string)
  : list Effect * Outcome :=
  match lines with
  | [] => ([], Completed fullContent)
  | Ignored :: rest => consume rest fullContent
  | Threw message :: rest =>
      if rethrown message then ([], Failed (ErrorObj message))
      else consume rest fullContent
  | Parsed content err :: rest =>
      let '(published, fullContent) :=
        match content with
        | Some c =>
            if truthy content
            then ([SetStreamingContent (fullContent ++ c)%string],
                  (fullContent ++ c)%string)
            else ([], fullContent)
        | None => ([], fullContent)
        end in
      match err with
      | Some e =>
          if truthy err && rethrown e
          then (published, Failed (ErrorObj e))
          else let '(effs, out) := consume rest fullContent in
               (published ++ effs, out)
      | None =>
          let '(effs, out) := consume rest fullContent in
          (published ++ effs, out)
      end
  end.

(** The [try] block up to the end of the read loop. *)
Definition attempt (resp : Response) : list Effect * Outcome :=
  match resp with
  | Rejected e => ([], Failed e)
  | NotOk => ([], Failed (ErrorObj "API request failed"))
  | NoReader => ([], Failed (ErrorObj "No reader"))
  | Stream lines ending =>
      let '(effs, out) := consume lines "" in
      match out, ending with
      | Completed _, Some e => (effs, Failed e)
      | _, _ => (effs, out)
      end
  end.

Definition RETRY_CEILING : Z := 3.

(** [Math.ceil(n / 4)] for a string length [n]. *)
Definition ceil_quarter (n : nat) : Z := (Z.of_nat n + 3) / 4.

(** [error instanceof Error ? error.message : 'Unknown error'] *)
Definition errorMessage_of (e : Thrown) : string :=
  match e with
  | ErrorObj message => message
  | OtherValue => "Unknown error"
  end.

Definition isCredentialError (errorMessage : string) : bool :=
  includes "401" errorMessage || includes "API key" errorMessage
  || includes "Incorrect" errorMessage.

Definition invalidKeyNotice (model : AIModel) : string :=
  (toUpperCase (model_str model)
   ++ " API 키가 유효하지 않습니다. 새 토론에서 다시 설정해주세요.")%string.

Definition callFailedNotice (model : AIModel) : string :=
  (toUpperCase (model_str model)
   ++ " API 호출에 실패했습니다. 새 토론에서 다시 시도해주세요.")%string.

Definition config_of (s : DebateState) : DebateConfig :=
  DebateConfig.mk (DebateState.selectedModels s) (DebateState.topic s)
                  (DebateState.messages s) (DebateState.stage s)
                  (DebateState.round s).

Section View.

Variable getSystemPrompt : AIModel -> string.
Variable getStagePrompt :
  DebateStage -> string -> list Message -> option string -> Z -> string.

(** The part of [runTurn] after a turn has been selected. *)
Definition executeTurn (v : ViewState) (turn : TurnResult) (resp : Response)
  : list Effect :=
  let s := ViewState.store v in
  let stage := DebateState.stage s in
  let round := DebateState.round s in
  let model := TurnResult.model turn in
  let request :=
    ChatRequest.mk model
      (AIState.apiKey (PerModel.get (DebateState.aiStates s) model))
      (TurnResult.systemPrompt turn)
      (TurnResult.contextMessages turn
         ++ [ContextMessage.mk user (TurnResult.prompt turn)]) in
  let '(published, outcome) := attempt resp in
  [ SetIsRunning true;
    SetCurrentStreamingModel (Some model);
    OnStore (Store.SetAIStatus model streaming);
    SetStreamingContent "";
    Fetch request ]
  ++ published
  ++ match outcome with
     | Completed fullContent =>
         [ OnStore (Store.AddMessage
                      (NewMessage.mk model fullContent stage round));
           OnStore (Store.SetAIStatus model complete);
           OnStore (Store.UpdateTokenUsage model
                      (ceil_quarter (js_length fullContent)));
           SetRetryCount model 0 ]
     | Failed e =>
         let errorMessage := errorMessage_of e in
         if isCredentialError errorMessage then
           [ SetApiError (ApiError.mk model (invalidKeyNotice model));
             OnStore (Store.SetAIStatus model abstained) ]
         else
           let currentRetry := PerModel.get (ViewState.retryCount v) model in
           if currentRetry <? RETRY_CEILING then
             [ SetRetryCount model (currentRetry + 1);
               OnStore (Store.SetAIStatus model idle) ]
           else
             [ SetApiError (ApiError.mk model (callFailedNotice model));
               OnStore (Store.SetAIStatus model abstained) ]
     end
  ++ [ SetCurrentStreamingModel None;
       SetStreamingContent "";
       SetIsRunning false ].

Definition runTurn (v : ViewState) (resp : Response) : list Effect :=
  let s := ViewState.store v in
  if DebateState.isPaused s || DebateState.isComplete s
     || ViewState.isRunning v
  then []
  else
    let config := config_of s in
    if checkConsensus config then [OnStore (Store.SetComplete true)]
    else
      let stageCheck := shouldAdvanceStage config in
      match StageCheck.advance stageCheck, StageCheck.nextStage stageCheck with
      | true, Some nextStage =>
          if DebateStage_eqb nextStage result
          then [OnStore (Store.SetComplete false)]
          else [OnStore (Store.SetStage nextStage); OnStore (Store.SetRound 1)]
      | _, _ =>
          if shouldAdvanceRound config
          then [OnStore (Store.SetRound (DebateState.round s + 1))]
          else
            match getNextTurn getSystemPrompt getStagePrompt config with
            | None => []
            | Some turn => executeTurn v turn resp
            end
      end.

End View.

(** How one effect changes the view state; [now_id] and [now_ts] are the two
    readings of [Date.now()] an appended message gets. *)
Definition apply_effect (now_id now_ts : Z) (v : ViewState) (e : Effect)
  : ViewState :=
  let '(ViewState.mk store streamingContent currentStreamingModel isRunning
                     retryCount apiError) := v in
  match e with
  | OnStore a =>
      ViewState.mk (Store.dispatch a now_id now_ts store) streamingContent
                   currentStreamingModel isRunning retryCount apiError
  | SetStreamingContent content =>
      ViewState.mk store content currentStreamingModel isRunning retryCount
                   apiError
  | SetCurrentStreamingModel model =>
      ViewState.mk store streamingContent model isRunning retryCount apiError
  | SetIsRunning b =>
      ViewState.mk store streamingContent currentStreamingModel b retryCount
                   apiError
  | SetRetryCount model n =>
      ViewState.mk store streamingContent currentStreamingModel isRunning
                   (PerModel.set retryCount model n) apiError
  | SetApiError err =>
      ViewState.mk store streamingContent currentStreamingModel isRunning
                   retryCount (Some err)
  | Fetch _ => v
  end.

Definition run_effects (now_id now_ts : Z) (effs : list Effect) (v : ViewState)
  : ViewState :=
  fold_left (apply_effect now_id now_ts) effs v.

(* ------------------------------------------------------------------ *)
(** ** Sessions: the controller loop as a transition system *)

Section Session.

Variable getSystemPrompt : AIModel -> string.
Variable getStagePrompt :
  DebateStage -> string -> list Message -> option string -> Z -> string.

(** One tick of the controller: [runTurn] to completion, with the answer
    [resp] of the generation service and the clock readings of the tick. *)
Definition tick (now_id now_ts : Z) (resp : Response) (v : ViewState)
  : ViewState :=
  run_effects now_id now_ts (runTurn getSystemPrompt getStagePrompt v resp) v.

(** The state in which [DebateView] is entered: ApiKeyModal has just called
    [setStage('position')] on a store whose participants were chosen with
    [toggleModel]; nothing has been said yet. *)
Definition session_start (v : ViewState) : Prop :=
  let s := ViewState.store v in
  DebateState.stage s = position
  /\ DebateState.round s = 0
  /\ DebateState.messages s = []
  /\ NoDup (DebateState.selectedModels s)
  /\ DebateState.isPaused s = false
  /\ DebateState.isComplete s = false
  /\ ViewState.isRunning v = false
  /\ ViewState.retryCount v = PerModel.mk 0 0 0
  /\ ViewState.apiError v = None.

Definition pause_button (v : ViewState) : ViewState :=
  apply_effect 0 0 v (OnStore Store.TogglePause).

Inductive reachable : ViewState -> Prop :=
| reach_start : forall v, session_start v -> reachable v
| reach_tick : forall v now_id now_ts resp,
    reachable v -> reachable (tick now_id now_ts resp v)
| reach_pause : forall v, reachable v -> reachable (pause_button v).

(** The tick reaches turn production with directive [turn]. *)
Definition selects (v : ViewState) (turn : TurnResult) : Prop :=
  let s := ViewState.store v in
  DebateState.isPaused s = false
  /\ DebateState.isComplete s = false
  /\ ViewState.isRunning v = false
  /\ checkConsensus (config_of s) = false
  /\ StageCheck.advance (shouldAdvanceStage (config_of s)) = false
  /\ shouldAdvanceRound (config_of s) = false
  /\ getNextTurn getSystemPrompt getStagePrompt (config_of s) = Some turn.

End Session.

(** Observations on a state. *)
Definition status_of (s : DebateState) (m : AIModel) : AIStatus :=
  AIState.status (PerModel.get (DebateState.aiStates s) m).

Definition usage_of (s : DebateState) (m : AIModel) : Z :=
  AIState.tokenUsage (PerModel.get (DebateState.aiStates s) m).

Definition retries_of (v : ViewState) (m : AIModel) : Z :=
  PerModel.get (ViewState.retryCount v) m.

(** [m] has an utterance for the pair ([stage], [round]). *)
Definition has_spoken (messages : list Message) (stage : DebateStage)
                      (round : Z) (m : AIModel) : bool :=
  existsb (AIModel_eqb m) (map Message.model (stageMessages messages stage round)).

(** The condition under which the effect arms the one-second timer that
    calls [runTurn] (the component is mounted). *)
Definition timerArmed (v : ViewState) : bool :=
  let s := ViewState.store v in
  negb (DebateState.isPaused s)
  && negb (DebateState.isComplete s)
  && negb (DebateStage_eqb (DebateState.stage s) result)
  && negb (ViewState.isRunning v).

(** ** Concrete sessions used below *)

Definition plainSystemPrompt (m : AIModel) : string := "system".
Definition plainStagePrompt (stage : DebateStage) (topic : string)
  (recent : list Message) (currentConsensus : option string) (round : Z)
  : string := topic.

Definition two_party_start : ViewState :=
  ViewState.mk
    (DebateState.mk "tabs or spaces" position 0 [] [gpt; gemini]
       (PerModel.mk (AIState.mk gpt idle "k1" 0) (AIState.mk gemini idle "k2" 0)
                    (createInitialAIState claude))
       false false false)
    "" None false (PerModel.mk 0 0 0) None.

Definition say (text : string) : Response :=
  Stream [Parsed (Some text) None; Ignored] None.

Definition bad_key : Response :=
  Stream [Parsed None (Some "401 Incorrect API key provided")] None.

Definition outage : Response := NotOk.

Definition tick0 := tick plainSystemPrompt plainStagePrompt.

(** gpt has taken its position; gemini's key was refused. *)
Definition gemini_refused : ViewState :=
  tick0 1001 1001 bad_key (tick0 1000 1000 (say "Tabs.") two_party_start).

(* ================================================================== *)
(** * Properties *)

(** ** Equality tests and list facts *)

Lemma AIModel_eqb_eq (a b : AIModel) : AIModel_eqb a b = true <-> a = b.
Proof. destruct a, b; simpl; split; intro H; congruence. Qed.

Lemma AIModel_eqb_refl (a : AIModel) : AIModel_eqb a a = true.
Proof. now destruct a. Qed.

Lemma AIModel_eqb_neq (a b : AIModel) : AIModel_eqb a b = false <-> a <> b.
Proof. destruct a, b; simpl; split; intro H; congruence. Qed.

Lemma AIModel_eqb_sym (a b : AIModel) : AIModel_eqb a b = AIModel_eqb b a.
Proof. now destruct a, b. Qed.

Lemma DebateStage_eqb_eq (a b : DebateStage) :
  DebateStage_eqb a b = true <-> a = b.
Proof. destruct a, b; simpl; split; intro H; congruence. Qed.

Lemma DebateStage_eqb_refl (a : DebateStage) : DebateStage_eqb a a = true.
Proof. now destruct a. Qed.

Lemma AIStatus_eqb_eq (a b : AIStatus) : AIStatus_eqb a b = true <-> a = b.
Proof. destruct a, b; simpl; split; intro H; congruence. Qed.

Lemma last_elem_snoc {A} (l : list A) (x : A) : last_elem (l ++ [x]) = Some x.
Proof.
  unfold last_elem, at_index.
  rewrite length_app; simpl.
  replace (Z.of_nat (List.length l + 1) - 1) with (Z.of_nat (List.length l)) by lia.
  destruct (Z.ltb_spec (Z.of_nat (List.length l)) 0) as [Hneg | _]; [lia |].
  rewrite Nat2Z.id, nth_error_app2, Nat.sub_diag by lia.
  reflexivity.
Qed.

Lemma last_elem_Some {A} (l : list A) (x : A) :
  last_elem l = Some x <-> exists front, l = front ++ [x].
Proof.
  split.
  - induction l as [| y l' _] using rev_ind.
    + discriminate.
    + rewrite last_elem_snoc. intros [= ->]. now exists l'.
  - intros [front ->]. apply last_elem_snoc.
Qed.

(** The last element that passes a filter, located in the unfiltered list. *)
Lemma filter_snoc_split {A} (p : A -> bool) (l front : list A) (x : A) :
  filter p l = front ++ [x] ->
  exists before after,
    l = before ++ x :: after /\ p x = true /\ filter p after = [].
Proof.
  revert front.
  induction l as [| y l IH]; intros front H; simpl in H.
  - now destruct front.
  - destruct (p y) eqn:Hy.
    + destruct front as [| z front]; simpl in H.
      * injection H as -> Hrest. now exists [], l.
      * injection H as -> Hrest.
        destruct (IH _ Hrest) as (before & after & -> & Hx & Hafter).
        now exists (z :: before), after.
    + destruct (IH _ H) as (before & after & -> & Hx & Hafter).
      now exists (y :: before), after.
Qed.

Lemma filter_split_snoc {A} (p : A -> bool) (before after : list A) (x : A) :
  p x = true -> filter p after = [] ->
  filter p (before ++ x :: after) = filter p before ++ [x].
Proof.
  intros Hx Hafter. rewrite filter_app. simpl. now rewrite Hx, Hafter.
Qed.

Lemma filter_nil_iff {A} (p : A -> bool) (l : list A) :
  filter p l = [] <-> forall x, In x l -> p x = false.
Proof.
  induction l as [| y l IH]; simpl.
  - split; [intros _ x [] | reflexivity].
  - destruct (p y) eqn:Hy.
    + split; [discriminate |]. intro H. specialize (H y (or_introl eq_refl)).
      congruence.
    + rewrite IH. split.
      * intros H x [<- | Hin]; [assumption | now apply H].
      * intros H x Hin. apply H. now right.
Qed.

Lemma filter_filter {A} (p q : A -> bool) (l : list A) :
  filter q (filter p l) = filter (fun x => p x && q x) l.
Proof.
  induction l as [| y l IH]; simpl; [reflexivity |].
  destruct (p y); simpl; [destruct (q y) |]; now rewrite IH.
Qed.

(** ** Consensus detection *)

(** [u] is the most recent consensus-stage utterance of [m] in the log. *)
Definition latest_consensus_utterance (messages : list Message) (m : AIModel)
                                      (u : Message) : Prop :=
  exists before after,
    messages = before ++ u :: after
    /\ Message.stage u = consensus
    /\ Message.model u = m
    /\ forall u', In u' after ->
                  ~ (Message.stage u' = consensus /\ Message.model u' = m).

Definition carries_marker (u : Message) : bool :=
  includes CONSENSUS_MARKER (Message.content u).

Lemma latest_consensus_utterance_filter (messages : list Message)
                                        (m : AIModel) (u : Message) :
  last_elem
    (filter (fun x => AIModel_eqb (Message.model x) m)
            (filter (fun x => DebateStage_eqb (Message.stage x) consensus)
                    messages)) = Some u
  <-> latest_consensus_utterance messages m u.
Proof.
  rewrite filter_filter, last_elem_Some.
  set (p := fun x : Message =>
              DebateStage_eqb (Message.stage x) consensus
              && AIModel_eqb (Message.model x) m).
  assert (Hp : forall x, p x = true <->
                         Message.stage x = consensus /\ Message.model x = m).
  { intro x. unfold p.
    now rewrite andb_true_iff, DebateStage_eqb_eq, AIModel_eqb_eq. }
  split.
  - intros [front Hfront].
    destruct (filter_snoc_split p _ _ _ Hfront)
      as (before & after & Hsplit & Hu & Hafter).
    exists before, after. apply Hp in Hu. destruct Hu as [Hs Hm].
    repeat split; try assumption.
    intros u' Hin Hboth. apply Hp in Hboth.
    rewrite filter_nil_iff in Hafter. rewrite (Hafter u' Hin) in Hboth.
    discriminate.
  - intros (before & after & -> & Hs & Hm & Hafter).
    exists (filter p before). apply filter_split_snoc.
    + now apply Hp.
    + apply filter_nil_iff. intros x Hin.
      destruct (p x) eqn:Hx; [| reflexivity].
      apply Hp in Hx. now elim (Hafter x Hin).
Qed.

(** The claim as the specification words it: only the non-abstained
    participants are asked for their latest consensus-stage utterance. *)
Definition consensus_over_non_abstained (s : DebateState) : Prop :=
  DebateState.stage s = consensus
  /\ 3 <= DebateState.round s
  /\ forall m, In m (DebateState.selectedModels s) ->
               status_of s m <> abstained ->
               exists u, latest_consensus_utterance (DebateState.messages s) m u
                         /\ carries_marker u = true.

(** Round 3 of the consensus stage: gpt has agreed again, gemini, whose latest
    consensus-stage utterance objects, has just been marked abstained. *)
Definition gemini_out_at_consensus : DebateState :=
  DebateState.mk "tabs or spaces" consensus 3
    [ Message.mk "gpt-1" gpt "[CONSENSUS] Spaces." consensus 2 1;
      Message.mk "gemini-2" gemini "I still object." consensus 2 2;
      Message.mk "gpt-3" gpt "[CONSENSUS] Spaces." consensus 3 3 ]
    [gpt; gemini]
    (PerModel.mk (AIState.mk gpt complete "k1" 10)
                 (AIState.mk gemini abstained "k2" 4)
                 (createInitialAIState claude))
    false false false.

(** C1 (amended): [checkConsensus] returns true exactly when the stage is
    consensus, the round is at least 3, and every participating agent of
    [selectedModels], whatever its status, has a consensus-stage utterance
    whose most recent instance (of any round of that stage) contains the
    marker [[CONSENSUS]].  Hence it is false below round 3, outside the
    consensus stage, and when a participant has not spoken in that stage. *)
Theorem C1_checkConsensus_all_participants (config : DebateConfig) :
  checkConsensus config = true
  <-> DebateConfig.stage config = consensus
      /\ MIN_CONSENSUS_ROUND <= DebateConfig.round config
      /\ forall m, In m (DebateConfig.selectedModels config) ->
           exists u,
             latest_consensus_utterance (DebateConfig.messages config) m u
             /\ carries_marker u = true.
Proof.
  unfold checkConsensus.
  destruct (DebateStage_eqb (DebateConfig.stage config) consensus) eqn:Hstage;
    simpl.
  2:{ split; [discriminate |]. intros [Hs _].
      apply DebateStage_eqb_eq in Hs. congruence. }
  apply DebateStage_eqb_eq in Hstage.
  destruct (Z.ltb_spec (DebateConfig.round config) MIN_CONSENSUS_ROUND)
    as [Hlow | Hround].
  { split; [discriminate |]. intros (_ & Hr & _). lia. }
  rewrite forallb_forall. split.
  - intro Hall. repeat split; try assumption.
    intros m Hm.
    specialize (Hall _ (in_map _ _ _ Hm)). simpl in Hall.
    destruct (last_elem _) as [u |] eqn:Hlast; [| discriminate].
    exists u. split; [| exact Hall].
    now apply latest_consensus_utterance_filter.
  - intros (_ & _ & Hall) last Hin.
    apply in_map_iff in Hin. destruct Hin as (m & <- & Hm).
    destruct (Hall m Hm) as (u & Hu & Hmark).
    apply latest_consensus_utterance_filter in Hu. now rewrite Hu.
Qed.

(** C1 as worded fails: with gemini abstained and only gpt's latest
    consensus-stage utterance carrying the marker, the non-abstained
    participants all agree, yet [checkConsensus] answers false. *)
Lemma C1_abstained_agent_still_counts :
  ~ (forall s : DebateState,
       checkConsensus (config_of s) = true <-> consensus_over_non_abstained s).
Proof.
  intro H. specialize (H gemini_out_at_consensus).
  assert (Hcode : checkConsensus (config_of gemini_out_at_consensus) = false)
    by reflexivity.
  rewrite Hcode in H. destruct H as [_ H].
  enough (false = true) by discriminate.
  apply H. repeat split; try (simpl; lia).
  intros m Hin Hst.
  destruct Hin as [<- | [<- | []]].
  - exists (Message.mk "gpt-3" gpt "[CONSENSUS] Spaces." consensus 3 3).
    split; [| reflexivity].
    exists [ Message.mk "gpt-1" gpt "[CONSENSUS] Spaces." consensus 2 1;
             Message.mk "gemini-2" gemini "I still object." consensus 2 2 ], [].
    repeat split. intros u' [].
  - now elim Hst.
Qed.

(** ** The context window *)

(** The readable name a fragment is prefixed with. *)
Definition speaker_tag (m : AIModel) : string :=
  match m with gpt => "[GPT]: " | gemini => "[GEMINI]: " | claude => "[CLAUDE]: " end.

(** Fragment [c] renders utterance [u] for the agent [requester]. *)
Definition renders (requester : AIModel) (u : Message) (c : ContextMessage)
  : Prop :=
  (Message.model u = requester -> ContextMessage.role c = assistant)
  /\ (Message.model u <> requester -> ContextMessage.role c = user)
  /\ ContextMessage.content c = (speaker_tag (Message.model u)
                                 ++ Message.content u)%string.

Lemma slice_last_suffix {A} (n : nat) (l : list A) :
  exists older, l = older ++ slice_last n l
                /\ List.length (slice_last n l) = Nat.min n (List.length l).
Proof.
  exists (firstn (List.length l - n) l). unfold slice_last. split.
  - now rewrite firstn_skipn.
  - rewrite length_skipn. lia.
Qed.

Lemma Forall2_map_r {A B} (P : A -> B -> Prop) (f : A -> B) (l : list A) :
  (forall x, P x (f x)) -> Forall2 P l (map f l).
Proof. intro H. induction l; simpl; constructor; auto. Qed.

(** C9: for every log and requesting agent, [buildContextMessages] returns at
    most 5 fragments; they render, one for one and in log order, the last
    [min 5 (length log)] utterances of the log; each fragment is the
    utterance's text behind the upper-cased name of its author, with role
    [assistant] when the author is the requesting agent and [user]
    otherwise.  Being a function of the log and the agent, it has no effect
    on any state. *)
Theorem C9_context_window (messages : list Message) (currentModel : AIModel) :
  let ctx := buildContextMessages messages currentModel in
  (List.length ctx <= 5)%nat
  /\ exists older recent,
       messages = older ++ recent
       /\ List.length recent = Nat.min 5 (List.length messages)
       /\ Forall2 (renders currentModel) recent ctx.
Proof.
  unfold buildContextMessages.
  destruct (slice_last_suffix 5 messages) as (older & Hsplit & Hlen).
  split.
  - rewrite length_map, Hlen. lia.
  - exists older, (slice_last 5 messages). repeat split; try assumption.
    apply Forall2_map_r. intro u. unfold renders; simpl.
    repeat split.
    + intros ->. now rewrite AIModel_eqb_refl.
    + intro Hne. apply AIModel_eqb_neq in Hne. now rewrite Hne.
    + now destruct (Message.model u).
Qed.


(** ** What a tick does *)

Definition outcome_of (resp : Response) : Outcome := snd (attempt resp).

Definition publishes (e : Effect) : Prop :=
  match e with SetStreamingContent _ => True | _ => False end.

(** The state a turn for [model] leaves behind, by outcome. *)
Definition store_after_turn (s : DebateState) (model : AIModel)
                            (currentRetry now_id now_ts : Z)
                            (outcome : Outcome) : DebateState :=
  let s1 := Store.setAIStatus model streaming s in
  match outcome with
  | Completed fullContent =>
      Store.updateTokenUsage model (ceil_quarter (js_length fullContent))
        (Store.setAIStatus model complete
           (Store.addMessage
              (NewMessage.mk model fullContent (DebateState.stage s)
                             (DebateState.round s))
              now_id now_ts s1))
  | Failed e =>
      if isCredentialError (errorMessage_of e)
      then Store.setAIStatus model abstained s1
      else if currentRetry <? RETRY_CEILING
           then Store.setAIStatus model idle s1
           else Store.setAIStatus model abstained s1
  end.

Definition retryCount_after_turn (retryCount : PerModel.t Z) (model : AIModel)
                                 (outcome : Outcome) : PerModel.t Z :=
  match outcome with
  | Completed _ => PerModel.set retryCount model 0
  | Failed e =>
      if isCredentialError (errorMessage_of e) then retryCount
      else if PerModel.get retryCount model <? RETRY_CEILING
           then PerModel.set retryCount model (PerModel.get retryCount model + 1)
           else retryCount
  end.

Definition apiError_after_turn (apiError : option ApiError.t)
                               (retryCount : PerModel.t Z) (model : AIModel)
                               (outcome : Outcome) : option ApiError.t :=
  match outcome with
  | Completed _ => apiError
  | Failed e =>
      if isCredentialError (errorMessage_of e)
      then Some (ApiError.mk model (invalidKeyNotice model))
      else if PerModel.get retryCount model <? RETRY_CEILING
           then apiError
           else Some (ApiError.mk model (callFailedNotice model))
  end.

Lemma consume_publishes (lines : list LineEvent) (fullContent : string) :
  Forall publishes (fst (consume lines fullContent)).
Proof.
  revert fullContent.
  induction lines as [| line rest IH]; intro acc; simpl.
  - constructor.
  - destruct line as [| message | content err].
    + apply IH.
    + destruct (rethrown message); [constructor | apply IH].
    + assert (Hpub : forall pub acc',
                 Forall publishes pub ->
                 Forall publishes
                   (fst (let '(effs, out) := consume rest acc' in
                         (pub ++ effs, out)))).
      { intros pub acc' Hp. specialize (IH acc').
        destruct (consume rest acc') as [effs out]; simpl in *.
        apply Forall_app. now split. }
      destruct content as [[| c0 c] |];
        (destruct err as [e |];
         [destruct (truthy (Some e) && rethrown e) |]); simpl;
        first [ apply (Hpub []); constructor
              | apply (Hpub [SetStreamingContent _]); repeat constructor
              | repeat constructor ].
Qed.

Lemma attempt_publishes (resp : Response) :
  Forall publishes (fst (attempt resp)).
Proof.
  destruct resp as [e | | | lines ending]; simpl; try constructor.
  pose proof (consume_publishes lines "") as H.
  destruct (consume lines "") as [effs out]; simpl in *.
  now destruct out, ending.
Qed.

Lemma run_published (now_id now_ts : Z) (effs : list Effect) :
  Forall publishes effs ->
  forall s sc csm ir rc ae,
  exists sc',
    run_effects now_id now_ts effs (ViewState.mk s sc csm ir rc ae)
    = ViewState.mk s sc' csm ir rc ae.
Proof.
  unfold run_effects.
  induction 1 as [| e effs He _ IH]; intros s sc csm ir rc ae; simpl.
  - now exists sc.
  - destruct e; try contradiction. apply IH.
Qed.

(** *** One action per tick *)

(** The four actions of the scheduler, read off the effects of a tick. *)
Definition completes (effs : list Effect) : Prop :=
  exists b, In (OnStore (Store.SetComplete b)) effs.

Definition advances_stage (effs : list Effect) : Prop :=
  exists stage, In (OnStore (Store.SetStage stage)) effs.

Definition advances_round (effs : list Effect) : Prop :=
  (exists round, In (OnStore (Store.SetRound round)) effs)
  /\ ~ advances_stage effs.

Definition produces_turn (effs : list Effect) : Prop :=
  exists request, In (Fetch request) effs.

(** What the executor may do: nothing that moves the stage or the round, or
    completes the session. *)
Definition executor_effect (e : Effect) : Prop :=
  match e with
  | OnStore (Store.SetAIStatus _ _)
  | OnStore (Store.AddMessage _)
  | OnStore (Store.UpdateTokenUsage _ _) => True
  | OnStore _ => False
  | _ => True
  end.

Lemma publishes_executor_effect (effs : list Effect) :
  Forall publishes effs -> Forall executor_effect effs.
Proof.
  apply Forall_impl. now intros [].
Qed.

Lemma executeTurn_effects (v : ViewState) (turn : TurnResult)
                          (resp : Response) :
  Forall executor_effect (executeTurn v turn resp).
Proof.
  unfold executeTurn.
  pose proof (attempt_publishes resp) as Hpub.
  destruct (attempt resp) as [published outcome]; simpl in Hpub.
  apply Forall_app; split; [repeat constructor |].
  apply Forall_app; split; [now apply publishes_executor_effect |].
  apply Forall_app; split; [| repeat constructor].
  destruct outcome as [fullContent | e];
    [| destruct (isCredentialError _); [| destruct (_ <? _)]];
    repeat constructor.
Qed.

Lemma executeTurn_moves_nothing (v : ViewState) (turn : TurnResult)
                                (resp : Response) :
  ~ completes (executeTurn v turn resp)
  /\ ~ advances_stage (executeTurn v turn resp)
  /\ ~ advances_round (executeTurn v turn resp).
Proof.
  pose proof (executeTurn_effects v turn resp) as H.
  rewrite Forall_forall in H.
  repeat split.
  - intros [b Hin]. exact (H _ Hin).
  - intros [st Hin]. exact (H _ Hin).
  - intros [[r Hin] _]. exact (H _ Hin).
Qed.

Ltac scan_effects :=
  repeat match goal with
         | H : completes _ |- _ => destruct H as [? H]
         | H : advances_stage _ |- _ => destruct H as [? H]
         | H : advances_round _ |- _ => destruct H as [[? H] ?]
         | H : produces_turn _ |- _ => destruct H as [? H]
         | H : In _ (_ :: _) |- _ => destruct H as [H | H]; [try discriminate H |]
         | H : In _ [] |- _ => destruct H
         end.

(** *** Who speaks, and when a round is over *)

(** The agents with an utterance for ([stage], [round]), in log order. *)
Definition speakers (messages : list Message) (stage : DebateStage) (round : Z)
  : list AIModel :=
  map Message.model (stageMessages messages stage round).

(** Every utterance is by a participant, and no participant has two
    utterances for the same stage and round. *)
Definition well_formed_log (s : DebateState) : Prop :=
  NoDup (DebateState.selectedModels s)
  /\ (forall stage round,
        NoDup (speakers (DebateState.messages s) stage round))
  /\ (forall u, In u (DebateState.messages s) ->
                In (Message.model u) (DebateState.selectedModels s)).

Lemma has_spoken_In (messages : list Message) (stage : DebateStage)
                    (round : Z) (m : AIModel) :
  has_spoken messages stage round m = true
  <-> In m (speakers messages stage round).
Proof.
  unfold has_spoken. fold (speakers messages stage round).
  rewrite existsb_exists. split.
  - intros (x & Hin & Heq). apply AIModel_eqb_eq in Heq. now subst.
  - intro Hin. exists m. split; [assumption | apply AIModel_eqb_refl].
Qed.

Lemma has_not_spoken_In (messages : list Message) (stage : DebateStage)
                        (round : Z) (m : AIModel) :
  has_spoken messages stage round m = false
  <-> ~ In m (speakers messages stage round).
Proof.
  rewrite <- has_spoken_In. now destruct (has_spoken _ _ _ _).
Qed.

Lemma find_split {A} (p : A -> bool) (l : list A) (x : A) :
  find p l = Some x ->
  exists earlier later,
    l = earlier ++ x :: later
    /\ p x = true
    /\ forall y, In y earlier -> p y = false.
Proof.
  induction l as [| y l IH]; simpl; [discriminate |].
  destruct (p y) eqn:Hy.
  - intros [= ->]. exists [], l. repeat split; [assumption | intros ? []].
  - intro H. destruct (IH H) as (earlier & later & -> & Hx & Hearlier).
    exists (y :: earlier), later. repeat split; [assumption |].
    intros z [<- | Hz]; [assumption | now apply Hearlier].
Qed.

Lemma NoDup_snoc {A} (l : list A) (x : A) :
  NoDup l -> ~ In x l -> NoDup (l ++ [x]).
Proof.
  intros Hl Hx. apply NoDup_rev in Hl. rewrite <- (rev_involutive (l ++ [x])).
  apply NoDup_rev. rewrite rev_app_distr. simpl. constructor; [| assumption].
  now rewrite <- in_rev.
Qed.

Lemma speakers_snoc (messages : list Message) (u : Message)
                    (stage : DebateStage) (round : Z) :
  speakers (messages ++ [u]) stage round
  = speakers messages stage round
    ++ (if DebateStage_eqb (Message.stage u) stage && (Message.round u =? round)
        then [Message.model u] else []).
Proof.
  unfold speakers, stageMessages. rewrite filter_app, map_app. simpl.
  now destruct (_ && _).
Qed.

Lemma well_formed_log_same (s s' : DebateState) :
  DebateState.messages s' = DebateState.messages s ->
  DebateState.selectedModels s' = DebateState.selectedModels s ->
  well_formed_log s -> well_formed_log s'.
Proof. unfold well_formed_log. now intros -> ->. Qed.

Lemma well_formed_log_snoc (s s' : DebateState) (u : Message) :
  DebateState.messages s' = DebateState.messages s ++ [u] ->
  DebateState.selectedModels s' = DebateState.selectedModels s ->
  In (Message.model u) (DebateState.selectedModels s) ->
  has_spoken (DebateState.messages s) (Message.stage u) (Message.round u)
             (Message.model u) = false ->
  well_formed_log s -> well_formed_log s'.
Proof.
  unfold well_formed_log. intros -> -> Hin Hnew (Hsel & Hone & Hby).
  split; [assumption |]. split.
  - intros stage round. rewrite speakers_snoc.
    destruct (DebateStage_eqb (Message.stage u) stage) eqn:Hs; simpl.
    2:{ rewrite app_nil_r. apply Hone. }
    destruct (Z.eqb_spec (Message.round u) round) as [Hr | Hr].
    2:{ rewrite app_nil_r. apply Hone. }
    apply DebateStage_eqb_eq in Hs. subst stage round.
    apply NoDup_snoc; [apply Hone | now apply has_not_spoken_In].
  - intros x Hx. apply in_app_or in Hx. destruct Hx as [Hx | [<- | []]].
    + now apply Hby.
    + assumption.
Qed.

Section Protocol.

Variable getSystemPrompt : AIModel -> string.
Variable getStagePrompt :
  DebateStage -> string -> list Message -> option string -> Z -> string.

#[local] Abbreviation runTurn_ := (runTurn getSystemPrompt getStagePrompt).
#[local] Abbreviation tick_ := (tick getSystemPrompt getStagePrompt).
#[local] Abbreviation selects_ := (selects getSystemPrompt getStagePrompt).
#[local] Abbreviation reachable_ := (reachable getSystemPrompt getStagePrompt).
#[local] Abbreviation getNextTurn_ :=
  (getNextTurn getSystemPrompt getStagePrompt).

Lemma runTurn_selected (v : ViewState) (turn : TurnResult) (resp : Response) :
  selects_ v turn -> runTurn_ v resp = executeTurn v turn resp.
Proof.
  intros (Hp & Hc & Hr & Hcc & Hadv & Hsar & Hturn).
  unfold runTurn. rewrite Hp, Hc, Hr, Hcc. simpl.
  destruct (shouldAdvanceStage _) as [adv nxt]; simpl in Hadv; subst adv.
  now rewrite Hsar, Hturn.
Qed.

(** A tick that produces a turn ends in the state computed by the three
    [_after_turn] functions; the transient cells are back to rest. *)
Lemma tick_selected (v : ViewState) (turn : TurnResult) (resp : Response)
                    (now_id now_ts : Z) :
  selects_ v turn ->
  tick_ now_id now_ts resp v
  = ViewState.mk
      (store_after_turn (ViewState.store v) (TurnResult.model turn)
                        (retries_of v (TurnResult.model turn))
                        now_id now_ts (outcome_of resp))
      "" None false
      (retryCount_after_turn (ViewState.retryCount v) (TurnResult.model turn)
                             (outcome_of resp))
      (apiError_after_turn (ViewState.apiError v) (ViewState.retryCount v)
                           (TurnResult.model turn) (outcome_of resp)).
Proof.
  intro Hsel. unfold tick. rewrite (runTurn_selected _ _ _ Hsel).
  unfold executeTurn, outcome_of, retries_of.
  pose proof (attempt_publishes resp) as Hpub.
  destruct (attempt resp) as [published outcome]; simpl in Hpub |- *.
  destruct v as [s sc csm ir rc ae]; simpl.
  unfold run_effects. simpl. rewrite fold_left_app.
  destruct (run_published now_id now_ts published Hpub
              (Store.setAIStatus (TurnResult.model turn) streaming s)
              "" (Some (TurnResult.model turn)) true rc ae) as [sc' Hrun].
  unfold run_effects in Hrun. rewrite Hrun.
  unfold store_after_turn, retryCount_after_turn, apiError_after_turn.
  destruct outcome as [fullContent | e]; simpl; [reflexivity |].
  destruct (isCredentialError (errorMessage_of e)); simpl; [reflexivity |].
  destruct (PerModel.get rc (TurnResult.model turn) <? RETRY_CEILING);
    reflexivity.
Qed.

(** Every tick is of exactly one of these kinds. *)
Inductive TickKind (v : ViewState) (resp : Response) : list Effect -> Prop :=
| tick_guarded :
    DebateState.isPaused (ViewState.store v)
    || DebateState.isComplete (ViewState.store v)
    || ViewState.isRunning v = true ->
    TickKind v resp []
| tick_consensus :
    checkConsensus (config_of (ViewState.store v)) = true ->
    TickKind v resp [OnStore (Store.SetComplete true)]
| tick_exhausted :
    checkConsensus (config_of (ViewState.store v)) = false ->
    StageCheck.advance (shouldAdvanceStage (config_of (ViewState.store v)))
    = true ->
    getNextStage (DebateState.stage (ViewState.store v)) = result ->
    TickKind v resp [OnStore (Store.SetComplete false)]
| tick_stage :
    checkConsensus (config_of (ViewState.store v)) = false ->
    StageCheck.advance (shouldAdvanceStage (config_of (ViewState.store v)))
    = true ->
    getNextStage (DebateState.stage (ViewState.store v)) <> result ->
    TickKind v resp
      [ OnStore (Store.SetStage
                   (getNextStage (DebateState.stage (ViewState.store v))));
        OnStore (Store.SetRound 1) ]
| tick_round :
    checkConsensus (config_of (ViewState.store v)) = false ->
    StageCheck.advance (shouldAdvanceStage (config_of (ViewState.store v)))
    = false ->
    shouldAdvanceRound (config_of (ViewState.store v)) = true ->
    TickKind v resp
      [OnStore (Store.SetRound (DebateState.round (ViewState.store v) + 1))]
| tick_nobody :
    checkConsensus (config_of (ViewState.store v)) = false ->
    StageCheck.advance (shouldAdvanceStage (config_of (ViewState.store v)))
    = false ->
    shouldAdvanceRound (config_of (ViewState.store v)) = false ->
    getNextTurn_ (config_of (ViewState.store v)) = None ->
    TickKind v resp []
| tick_turn : forall turn,
    selects_ v turn ->
    TickKind v resp (executeTurn v turn resp).

Lemma shouldAdvanceStage_next (config : DebateConfig) :
  StageCheck.advance (shouldAdvanceStage config) = true ->
  StageCheck.nextStage (shouldAdvanceStage config)
  = Some (getNextStage (DebateConfig.stage config)).
Proof.
  unfold shouldAdvanceStage.
  now destruct (_ <=? _).
Qed.

Lemma runTurn_kind (v : ViewState) (resp : Response) :
  TickKind v resp (runTurn_ v resp).
Proof.
  unfold runTurn.
  destruct (DebateState.isPaused (ViewState.store v)
            || DebateState.isComplete (ViewState.store v)
            || ViewState.isRunning v) eqn:Hguard.
  { now apply tick_guarded. }
  apply orb_false_iff in Hguard. destruct Hguard as [Hguard Hrun].
  apply orb_false_iff in Hguard. destruct Hguard as [Hpaused Hcomplete].
  destruct (checkConsensus _) eqn:Hcc.
  { now apply tick_consensus. }
  destruct (StageCheck.advance (shouldAdvanceStage _)) eqn:Hadv.
  - rewrite (shouldAdvanceStage_next _ Hadv). simpl.
    destruct (DebateStage_eqb _ result) eqn:Hres.
    + apply DebateStage_eqb_eq in Hres. now apply tick_exhausted.
    + apply tick_stage; try assumption.
      intro Heq. apply DebateStage_eqb_eq in Heq. simpl in Hres. congruence.
  - assert (Hfall :
      forall (nxt : option DebateStage) (A B : list Effect),
        match false, nxt with
        | true, Some nextStage => A
        | _, _ => B
        end = B) by now intros [].
    destruct (shouldAdvanceRound _) eqn:Hsar.
    + now apply tick_round.
    + destruct (getNextTurn _ _ _) as [turn |] eqn:Hturn.
      * apply tick_turn. now repeat split.
      * now apply tick_nobody.
Qed.

(** *** Reading a state after the store's status and counter updates *)

Lemma PerModel_get_set_same {T} (r : PerModel.t T) (m : AIModel) (x : T) :
  PerModel.get (PerModel.set r m x) m = x.
Proof. now destruct m. Qed.

Lemma PerModel_get_set_other {T} (r : PerModel.t T) (m m' : AIModel) (x : T) :
  m' <> m -> PerModel.get (PerModel.set r m x) m' = PerModel.get r m'.
Proof. destruct m, m'; simpl; congruence. Qed.

Lemma PerModel_set_get {T} (r : PerModel.t T) (m : AIModel) :
  PerModel.set r m (PerModel.get r m) = r.
Proof. now destruct r, m. Qed.

Definition is_fetch (e : Effect) : bool :=
  match e with Fetch _ => true | _ => false end.

Lemma published_no_fetch (effs : list Effect) :
  Forall publishes effs -> filter is_fetch effs = [].
Proof.
  induction 1 as [| e effs He _ IH]; simpl; [reflexivity |].
  now destruct e.
Qed.

(** One request goes out in a tick that produces a turn, whatever comes back. *)
Lemma executeTurn_one_fetch (v : ViewState) (turn : TurnResult)
                            (resp : Response) :
  List.length (filter is_fetch (executeTurn v turn resp)) = 1%nat.
Proof.
  unfold executeTurn.
  pose proof (attempt_publishes resp) as Hpub.
  destruct (attempt resp) as [published outcome]; simpl in Hpub |- *.
  rewrite filter_app, (published_no_fetch _ Hpub). simpl.
  rewrite filter_app. simpl. rewrite app_nil_r.
  destruct outcome as [fullContent | e]; [reflexivity |].
  destruct (isCredentialError _); [reflexivity |].
  now destruct (_ <? _).
Qed.

(** C5: when the selected agent's turn fails with an error that is not a
    credential error, no utterance is committed; if the agent's retry counter
    is below 3 the counter goes up by one, the agent's status becomes [idle]
    and no error is surfaced; otherwise (the counter has reached 3) the
    status becomes [abstained], the call-failed notice is surfaced as the
    terminal error and the counters are left as they were. *)
Theorem C5_transient_failure (v : ViewState) (turn : TurnResult)
    (resp : Response) (now_id now_ts : Z) (e : Thrown) :
  selects_ v turn ->
  outcome_of resp = Failed e ->
  isCredentialError (errorMessage_of e) = false ->
  let m := TurnResult.model turn in
  let v' := tick_ now_id now_ts resp v in
  DebateState.messages (ViewState.store v')
  = DebateState.messages (ViewState.store v)
  /\ (retries_of v m < RETRY_CEILING ->
      retries_of v' m = retries_of v m + 1
      /\ status_of (ViewState.store v') m = idle
      /\ ViewState.apiError v' = ViewState.apiError v)
  /\ (RETRY_CEILING <= retries_of v m ->
      status_of (ViewState.store v') m = abstained
      /\ ViewState.apiError v' = Some (ApiError.mk m (callFailedNotice m))
      /\ ViewState.retryCount v' = ViewState.retryCount v).
Proof.
  intros Hsel Hout Hcred m v'. subst v'.
  rewrite (tick_selected _ _ _ _ _ Hsel), Hout. fold m.
  unfold store_after_turn, retryCount_after_turn, apiError_after_turn,
    retries_of, status_of.
  rewrite Hcred. simpl ViewState.store. simpl ViewState.retryCount.
  simpl ViewState.apiError.
  destruct (Z.ltb_spec (PerModel.get (ViewState.retryCount v) m) RETRY_CEILING)
    as [Hlow | Hhigh].
  - split; [reflexivity |]. split; [| lia]. intros _. simpl.
    now rewrite !PerModel_get_set_same.
  - split; [reflexivity |]. split; [lia |]. intros _. simpl.
    now rewrite !PerModel_get_set_same.
Qed.

(** C10: when the stream of the selected agent ends without error and the
    accumulated text is empty, the tick still appends an utterance with
    empty content for the current stage and round, sets the agent's status
    to [complete], resets its retry counter to 0 and adds 0 to its usage. *)
Theorem C10_empty_text_is_committed (v : ViewState) (turn : TurnResult)
    (resp : Response) (now_id now_ts : Z) :
  selects_ v turn ->
  outcome_of resp = Completed "" ->
  let m := TurnResult.model turn in
  let s := ViewState.store v in
  let v' := tick_ now_id now_ts resp v in
  DebateState.messages (ViewState.store v')
  = DebateState.messages s
    ++ [ Message.mk (model_str m ++ "-" ++ string_of_number now_id)%string
                    m "" (DebateState.stage s) (DebateState.round s) now_ts ]
  /\ status_of (ViewState.store v') m = complete
  /\ retries_of v' m = 0
  /\ usage_of (ViewState.store v') m = usage_of s m.
Proof.
  intros Hsel Hout m s v'. subst v'.
  rewrite (tick_selected _ _ _ _ _ Hsel), Hout. fold m. fold s.
  unfold store_after_turn, retryCount_after_turn, retries_of, status_of,
    usage_of.
  simpl. rewrite !PerModel_get_set_same. simpl.
  repeat split; try reflexivity.
  change (ceil_quarter 0) with 0. lia.
Qed.

(** C8: a tick that produces a turn for agent [m] leaves the session's
    topic, stage, round, participant list, paused flag, completion and
    consensus flags untouched, leaves every other agent's state and retry
    counter untouched, keeps [m]'s own identity and key, and changes the log
    only by appending one utterance, and only when the stream completed.
    The cells that show a turn in progress are at rest again afterwards. *)
Theorem C8_turn_frame (v : ViewState) (turn : TurnResult) (resp : Response)
    (now_id now_ts : Z) :
  selects_ v turn ->
  let m := TurnResult.model turn in
  let s := ViewState.store v in
  let v' := tick_ now_id now_ts resp v in
  let s' := ViewState.store v' in
  DebateState.topic s' = DebateState.topic s
  /\ DebateState.stage s' = DebateState.stage s
  /\ DebateState.round s' = DebateState.round s
  /\ DebateState.selectedModels s' = DebateState.selectedModels s
  /\ DebateState.isPaused s' = DebateState.isPaused s
  /\ DebateState.isComplete s' = DebateState.isComplete s
  /\ DebateState.consensusReached s' = DebateState.consensusReached s
  /\ (forall m', m' <> m ->
        PerModel.get (DebateState.aiStates s') m'
        = PerModel.get (DebateState.aiStates s) m'
        /\ retries_of v' m' = retries_of v m')
  /\ AIState.model (PerModel.get (DebateState.aiStates s') m)
     = AIState.model (PerModel.get (DebateState.aiStates s) m)
  /\ AIState.apiKey (PerModel.get (DebateState.aiStates s') m)
     = AIState.apiKey (PerModel.get (DebateState.aiStates s) m)
  /\ match outcome_of resp with
     | Completed fullContent =>
         DebateState.messages s'
         = DebateState.messages s
           ++ [ Message.mk
                  (model_str m ++ "-" ++ string_of_number now_id)%string
                  m fullContent (DebateState.stage s) (DebateState.round s)
                  now_ts ]
     | Failed _ => DebateState.messages s' = DebateState.messages s
     end
  /\ ViewState.streamingContent v' = ""
  /\ ViewState.currentStreamingModel v' = None
  /\ ViewState.isRunning v' = false.
Proof.
  intros Hsel m s v' s'. subst s' v'.
  rewrite (tick_selected _ _ _ _ _ Hsel). fold m. fold s.
  unfold store_after_turn, retryCount_after_turn, retries_of.
  cbn [ViewState.store ViewState.retryCount ViewState.streamingContent
       ViewState.currentStreamingModel ViewState.isRunning].
  destruct (outcome_of resp) as [fullContent | e].
  - simpl. rewrite !PerModel_get_set_same. simpl.
    repeat split; try reflexivity;
      now rewrite ?PerModel_get_set_other by assumption.
  - destruct (isCredentialError _);
      [| destruct (_ <? _)]; simpl; rewrite !PerModel_get_set_same; simpl;
      repeat split; try reflexivity;
      now rewrite ?PerModel_get_set_other by assumption.
Qed.

(** C4: on a tick of a session that is not paused, not complete and has no
    turn in flight, [runTurn] performs a single action chosen in this order:
    completion with consensus when [checkConsensus] holds; otherwise stage
    advance (or completion without consensus when the next stage is
    [result]) when [shouldAdvanceStage] says so; otherwise round advance when
    [shouldAdvanceRound] holds; otherwise the turn [getNextTurn] selects, if
    any.  No two of the four actions happen in the same tick, and a tick in
    which consensus, stage advance or round advance applies sends no request
    and leaves the log as it is. *)
Theorem C4_priority_order (v : ViewState) (resp : Response)
    (now_id now_ts : Z) :
  DebateState.isPaused (ViewState.store v) = false ->
  DebateState.isComplete (ViewState.store v) = false ->
  ViewState.isRunning v = false ->
  let config := config_of (ViewState.store v) in
  let effs := runTurn_ v resp in
  (checkConsensus config = true ->
   effs = [OnStore (Store.SetComplete true)])
  /\ (checkConsensus config = false ->
      StageCheck.advance (shouldAdvanceStage config) = true ->
      effs = [OnStore (Store.SetComplete false)]
      \/ exists next, next <> result
           /\ effs = [OnStore (Store.SetStage next); OnStore (Store.SetRound 1)])
  /\ (checkConsensus config = false ->
      StageCheck.advance (shouldAdvanceStage config) = false ->
      shouldAdvanceRound config = true ->
      effs = [OnStore (Store.SetRound (DebateConfig.round config + 1))])
  /\ (checkConsensus config = false ->
      StageCheck.advance (shouldAdvanceStage config) = false ->
      shouldAdvanceRound config = false ->
      effs = match getNextTurn_ config with
             | Some turn => executeTurn v turn resp
             | None => []
             end)
  /\ (completes effs ->
      ~ advances_stage effs /\ ~ advances_round effs /\ ~ produces_turn effs)
  /\ (advances_stage effs -> ~ advances_round effs /\ ~ produces_turn effs)
  /\ (advances_round effs -> ~ produces_turn effs)
  /\ (checkConsensus config = true
      \/ StageCheck.advance (shouldAdvanceStage config) = true
      \/ shouldAdvanceRound config = true ->
      ~ produces_turn effs
      /\ DebateState.messages (ViewState.store (tick_ now_id now_ts resp v))
         = DebateState.messages (ViewState.store v)).
Proof.
  intros Hpaused Hcomplete Hrunning config effs. subst effs config.
  unfold tick.
  destruct (runTurn_kind v resp)
    as [Hguard | Hcc | Hcc Hadv Hnext | Hcc Hadv Hnext | Hcc Hadv Hsar
        | Hcc Hadv Hsar Hnone | turn Hsel].
  - rewrite Hpaused, Hcomplete, Hrunning in Hguard. discriminate.
  - repeat split; intros; try congruence; try (intro; scan_effects);
      now destruct v.
  - repeat split; intros; try congruence; try (intro; scan_effects);
      try (now left); now destruct v.
  - repeat split; intros; try congruence; try (intro; scan_effects);
      try (now destruct v).
    + right. now eexists.
    + match goal with H : ~ advances_stage _ |- _ => apply H end.
      eexists. now left.
  - repeat split; intros; try congruence; try (intro; scan_effects);
      now destruct v.
  - rewrite Hnone.
    repeat split; intros; try congruence; try (intro; scan_effects);
      now destruct v.
  - destruct (executeTurn_moves_nothing v turn resp) as (Hc & Hs & Hr).
    destruct Hsel as (_ & _ & _ & Hcc & Hadv & Hsar & Hturn).
    rewrite Hturn.
    repeat split; intros; try congruence; try contradiction;
      try (exfalso; intuition congruence).
Qed.

(** *** The log *)

Definition log_extended (before after : list Message) : Prop :=
  exists suffix, after = before ++ suffix.

(** The two store actions that do not extend the log. *)
Definition rewrites_log (a : Store.Action) : bool :=
  match a with
  | Store.UpdateStreamingMessage _ _ | Store.Reset => true
  | _ => false
  end.

Definition same_but_content (u u' : Message) : Prop :=
  Message.id u' = Message.id u
  /\ Message.model u' = Message.model u
  /\ Message.stage u' = Message.stage u
  /\ Message.round u' = Message.round u
  /\ Message.timestamp u' = Message.timestamp u.

Lemma findIndex_lower {A} (p : A -> bool) (l : list A) : -1 <= findIndex p l.
Proof.
  induction l as [| y l IHl]; simpl; [lia |].
  destruct (p y); [lia |]. destruct (_ <? _); lia.
Qed.

Lemma findIndex_absent {A} (p : A -> bool) (l : list A) :
  findIndex p l = -1 <-> existsb p l = false.
Proof.
  induction l as [| x l IH]; simpl; [easy |].
  destruct (p x); simpl; [easy |].
  destruct (Z.ltb_spec (findIndex p l) 0) as [Hneg | Hpos].
  - rewrite <- IH. split; [| easy]. intros _.
    pose proof (findIndex_lower p l). lia.
  - rewrite <- IH. split; lia.
Qed.

Lemma existsb_has_spoken (messages : list Message) (stage : DebateStage)
                         (round : Z) (m : AIModel) :
  existsb (fun u => AIModel_eqb (Message.model u) m
                    && DebateStage_eqb (Message.stage u) stage
                    && (Message.round u =? round)) messages
  = has_spoken messages stage round m.
Proof.
  unfold has_spoken, stageMessages.
  induction messages as [| u l IH]; simpl; [reflexivity |].
  rewrite IH.
  destruct (DebateStage_eqb (Message.stage u) stage && (Message.round u =? round))
    eqn:Hpair; simpl.
  - rewrite (AIModel_eqb_sym m). now rewrite <- andb_assoc, Hpair, andb_true_r.
  - now rewrite <- andb_assoc, Hpair, andb_false_r.
Qed.

Lemma store_after_turn_frame (s : DebateState) (m : AIModel)
    (currentRetry now_id now_ts : Z) (outcome : Outcome) :
  let s' := store_after_turn s m currentRetry now_id now_ts outcome in
  DebateState.selectedModels s' = DebateState.selectedModels s
  /\ DebateState.topic s' = DebateState.topic s
  /\ DebateState.stage s' = DebateState.stage s
  /\ DebateState.round s' = DebateState.round s
  /\ DebateState.isPaused s' = DebateState.isPaused s
  /\ DebateState.isComplete s' = DebateState.isComplete s
  /\ DebateState.messages s'
     = DebateState.messages s
       ++ match outcome with
          | Completed fullContent =>
              [ Message.mk
                  (model_str m ++ "-" ++ string_of_number now_id)%string
                  m fullContent (DebateState.stage s) (DebateState.round s)
                  now_ts ]
          | Failed _ => []
          end.
Proof.
  unfold store_after_turn.
  destruct outcome as [fullContent | e];
    [| destruct (isCredentialError _); [| destruct (_ <? _)]]; simpl;
    rewrite ?app_nil_r; now repeat split.
Qed.

Lemma tick_cases_store (v : ViewState) (resp : Response) (now_id now_ts : Z) :
  let s := ViewState.store v in
  let s' := ViewState.store (tick_ now_id now_ts resp v) in
  (DebateState.messages s' = DebateState.messages s
   /\ DebateState.selectedModels s' = DebateState.selectedModels s)
  \/ exists turn,
       selects_ v turn
       /\ s' = store_after_turn s (TurnResult.model turn)
                 (retries_of v (TurnResult.model turn)) now_id now_ts
                 (outcome_of resp).
Proof.
  intros s s'. subst s s'.
  pose proof (runTurn_kind v resp) as K.
  remember (runTurn_ v resp) as effs eqn:Heffs.
  destruct K as [ | | | | | | turn Hsel].
  7:{ right. exists turn. split; [assumption |].
      now rewrite (tick_selected _ _ _ _ _ Hsel). }
  all: left; unfold tick; rewrite <- Heffs; now destruct v.
Qed.

Lemma runTurn_never_rewrites (v : ViewState) (resp : Response) :
  forall a, In (OnStore a) (runTurn_ v resp) -> rewrites_log a = false.
Proof.
  intros a Hin.
  destruct (runTurn_kind v resp) as [ | | | | | | turn Hsel].
  7:{ pose proof (executeTurn_effects v turn resp) as H.
      rewrite Forall_forall in H. specialize (H _ Hin).
      now destruct a. }
  all: simpl in Hin;
    repeat match goal with
           | H : _ \/ _ |- _ => destruct H as [H | H]
           | H : OnStore _ = OnStore _ |- _ => injection H as <-
           | H : False |- _ => destruct H
           end; reflexivity.
Qed.

Lemma findIndex_split {A} (p : A -> bool) (l : list A) (f : A -> A) :
  findIndex p l <> -1 ->
  exists before u after,
    l = before ++ u :: after
    /\ p u = true
    /\ (forall x, In x before -> p x = false)
    /\ assign_at l (Z.to_nat (findIndex p l)) f = before ++ f u :: after.
Proof.
  induction l as [| x l IH]; simpl; [congruence |].
  destruct (p x) eqn:Hx.
  - intros _. exists [], x, l. repeat split; [assumption | intros ? []].
  - pose proof (findIndex_lower p l) as Hlow.
    destruct (Z.ltb_spec (findIndex p l) 0) as [Hneg | Hpos]; [congruence |].
    intros _.
    destruct IH as (before & u & after & Hl & Hu & Hbefore & Hassign); [lia |].
    exists (x :: before), u, after.
    replace (Z.to_nat (findIndex p l + 1)) with (S (Z.to_nat (findIndex p l)))
      by lia.
    simpl. rewrite Hassign, <- Hl.
    repeat split; try assumption.
    intros y [<- | Hy]; [assumption | now apply Hbefore].
Qed.

(** [u] is an utterance of [model] for the pair ([stage], [round]). *)
Definition utterance_of (model : AIModel) (stage : DebateStage) (round : Z)
                        (u : Message) : Prop :=
  Message.model u = model /\ Message.stage u = stage /\ Message.round u = round.

(** What [updateStreamingMessage] does to the log: it appends one utterance
    when its agent has none for the current stage and round, and puts the
    new text into the first such utterance otherwise. *)
Lemma updateStreamingMessage_exact (model : AIModel) (content : string)
                                   (now_id now_ts : Z) (s : DebateState) :
  let s' := Store.updateStreamingMessage model content now_id now_ts s in
  (has_spoken (DebateState.messages s) (DebateState.stage s)
              (DebateState.round s) model = false ->
   DebateState.messages s'
   = DebateState.messages s
     ++ [ Message.mk (model_str model ++ "-" ++ string_of_number now_id)%string
                     model content (DebateState.stage s) (DebateState.round s)
                     now_ts ])
  /\ (has_spoken (DebateState.messages s) (DebateState.stage s)
                 (DebateState.round s) model = true ->
      exists before u after,
        DebateState.messages s = before ++ u :: after
        /\ utterance_of model (DebateState.stage s) (DebateState.round s) u
        /\ (forall x, In x before ->
              ~ utterance_of model (DebateState.stage s) (DebateState.round s) x)
        /\ DebateState.messages s'
           = before
             ++ Message.mk (Message.id u) (Message.model u) content
                           (Message.stage u) (Message.round u)
                           (Message.timestamp u)
             :: after).
Proof.
  intro s'. subst s'. unfold Store.updateStreamingMessage.
  rewrite <- existsb_has_spoken.
  set (p := fun u : Message => _).
  assert (Hp : forall u, p u = true
                         <-> utterance_of model (DebateState.stage s)
                                          (DebateState.round s) u).
  { intro u. unfold p, utterance_of.
    rewrite !andb_true_iff, AIModel_eqb_eq, DebateStage_eqb_eq, Z.eqb_eq.
    tauto. }
  pose proof (findIndex_absent p (DebateState.messages s)) as Habs.
  destruct (Z.eqb_spec (findIndex p (DebateState.messages s)) (-1)) as [Heq | Hne].
  - split; [reflexivity |]. intro Hsp. apply Habs in Heq. congruence.
  - split.
    + intro Hsp. apply Habs in Hsp. contradiction.
    + intros _.
      destruct (findIndex_split p (DebateState.messages s)
                  (fun m => Store.with_content m content) Hne)
        as (before & u & after & Hl & Hu & Hbefore & Hassign).
      exists before, u, after. simpl. rewrite Hassign.
      repeat split; try assumption; try (now apply Hp).
      intros x Hx Hux. apply Hp in Hux. rewrite (Hbefore x Hx) in Hux.
      discriminate.
Qed.

(** What a store action other than the two does to the log. *)
Lemma dispatch_log (a : Store.Action) (now_id now_ts : Z) (s : DebateState) :
  rewrites_log a = false ->
  DebateState.messages (Store.dispatch a now_id now_ts s)
  = DebateState.messages s
    ++ match a with
       | Store.AddMessage message =>
           [ Message.mk
               (model_str (NewMessage.model message) ++ "-"
                  ++ string_of_number now_id)%string
               (NewMessage.model message) (NewMessage.content message)
               (NewMessage.stage message) (NewMessage.round message) now_ts ]
       | _ => []
       end.
Proof.
  destruct a; simpl; intro H; try discriminate H;
    rewrite ?app_nil_r; reflexivity.
Qed.

(** What a tick does to the log. *)
Lemma tick_log (v : ViewState) (resp : Response) (now_id now_ts : Z) :
  let s := ViewState.store v in
  let s' := ViewState.store (tick_ now_id now_ts resp v) in
  DebateState.messages s' = DebateState.messages s
  \/ exists turn fullContent,
       selects_ v turn
       /\ outcome_of resp = Completed fullContent
       /\ DebateState.messages s'
          = DebateState.messages s
            ++ [ Message.mk
                   (model_str (TurnResult.model turn) ++ "-"
                      ++ string_of_number now_id)%string
                   (TurnResult.model turn) fullContent (DebateState.stage s)
                   (DebateState.round s) now_ts ].
Proof.
  intros s s'. subst s s'.
  destruct (tick_cases_store v resp now_id now_ts)
    as [[Hm _] | (turn & Hsel & Hs)]; [now left |].
  rewrite Hs.
  destruct (store_after_turn_frame (ViewState.store v)
              (TurnResult.model turn) (retries_of v (TurnResult.model turn))
              now_id now_ts (outcome_of resp))
    as (_ & _ & _ & _ & _ & _ & Hm).
  rewrite Hm.
  destruct (outcome_of resp) as [fullContent | e] eqn:Hout.
  - right. exists turn, fullContent.
    split; [exact Hsel | split; reflexivity].
  - left. apply app_nil_r.
Qed.

(** C7 (amended): the log is append-only for every store action other than
    [updateStreamingMessage] and [reset], and for the controller.
    - Such an action leaves the log as it is, except [addMessage], which
      puts exactly the new utterance at its end.
    - A controller tick leaves the log as it is or puts exactly one
      utterance at its end: the completed text of the selected agent, for
      the current stage and round.  [runTurn] calls neither of the two
      actions, and the text of a turn in progress is only ever kept in
      [streamingContent]: what the read loop emits are assignments to that
      cell, which leave the store alone.
    - [updateStreamingMessage] puts exactly one new utterance at the end
      when its agent has none for the store's current stage and round.
      Otherwise it replaces the content of the first utterance of that agent
      for that stage and round by the given text, and nothing else: the
      utterances before and after it, and its id, model, stage, round and
      timestamp, are as they were.
    - [reset] puts the initial state in place, whose log is empty. *)
Theorem C7_log_append_only (a : Store.Action) (model : AIModel)
    (content : string) (now_id now_ts : Z) (s : DebateState)
    (v : ViewState) (resp : Response) :
  (rewrites_log a = false ->
   DebateState.messages (Store.dispatch a now_id now_ts s)
   = DebateState.messages s
     ++ match a with
        | Store.AddMessage message =>
            [ Message.mk
                (model_str (NewMessage.model message) ++ "-"
                   ++ string_of_number now_id)%string
                (NewMessage.model message) (NewMessage.content message)
                (NewMessage.stage message) (NewMessage.round message)
                now_ts ]
        | _ => []
        end)
  /\ (let s0 := ViewState.store v in
      let s1 := ViewState.store (tick_ now_id now_ts resp v) in
      DebateState.messages s1 = DebateState.messages s0
      \/ exists turn fullContent,
           selects_ v turn
           /\ outcome_of resp = Completed fullContent
           /\ DebateState.messages s1
              = DebateState.messages s0
                ++ [ Message.mk
                       (model_str (TurnResult.model turn) ++ "-"
                          ++ string_of_number now_id)%string
                       (TurnResult.model turn) fullContent
                       (DebateState.stage s0) (DebateState.round s0)
                       now_ts ])
  /\ (forall a', In (OnStore a') (runTurn_ v resp) -> rewrites_log a' = false)
  /\ (forall e, In e (fst (attempt resp)) ->
        exists text,
          e = SetStreamingContent text
          /\ forall w, ViewState.store (apply_effect now_id now_ts w e)
                       = ViewState.store w)
  /\ (let s' := Store.updateStreamingMessage model content now_id now_ts s in
      (has_spoken (DebateState.messages s) (DebateState.stage s)
                  (DebateState.round s) model = false ->
       DebateState.messages s'
       = DebateState.messages s
         ++ [ Message.mk
                (model_str model ++ "-" ++ string_of_number now_id)%string
                model content (DebateState.stage s) (DebateState.round s)
                now_ts ])
      /\ (has_spoken (DebateState.messages s) (DebateState.stage s)
                     (DebateState.round s) model = true ->
          exists before u after,
            DebateState.messages s = before ++ u :: after
            /\ utterance_of model (DebateState.stage s)
                            (DebateState.round s) u
            /\ (forall x, In x before ->
                  ~ utterance_of model (DebateState.stage s)
                                 (DebateState.round s) x)
            /\ DebateState.messages s'
               = before
                 ++ Message.mk (Message.id u) (Message.model u) content
                               (Message.stage u) (Message.round u)
                               (Message.timestamp u)
                 :: after))
  /\ Store.dispatch Store.Reset now_id now_ts s = initialState
  /\ DebateState.messages (Store.dispatch Store.Reset now_id now_ts s) = [].
Proof.
  split; [apply dispatch_log |].
  split; [apply tick_log |].
  split; [apply runTurn_never_rewrites |].
  split.
  { intros e He.
    pose proof (attempt_publishes resp) as Hpub.
    rewrite Forall_forall in Hpub. specialize (Hpub e He).
    destruct e; try contradiction.
    eexists. split; [reflexivity |]. now intros []. }
  split; [apply updateStreamingMessage_exact |].
  now split.
Qed.

(** [getNextTurn] picks the first participant, in list order, without an
    utterance for the current stage and round. *)
Lemma getNextTurn_first_silent (config : DebateConfig) (turn : TurnResult) :
  getNextTurn_ config = Some turn ->
  exists earlier later,
    DebateConfig.selectedModels config
    = earlier ++ TurnResult.model turn :: later
    /\ has_spoken (DebateConfig.messages config) (DebateConfig.stage config)
                  (DebateConfig.round config) (TurnResult.model turn) = false
    /\ forall m, In m earlier ->
         has_spoken (DebateConfig.messages config) (DebateConfig.stage config)
                    (DebateConfig.round config) m = true.
Proof.
  unfold getNextTurn.
  destruct (_ || _); [discriminate |].
  destruct (find _ _) as [nextModel |] eqn:Hfind; [| discriminate].
  intros [= <-]. simpl.
  destruct (find_split _ _ _ Hfind) as (earlier & later & Hsplit & Hx & Hearlier).
  exists earlier, later. repeat split; [assumption | |].
  - now apply negb_true_iff in Hx.
  - intros m Hm. specialize (Hearlier m Hm). now apply negb_false_iff in Hearlier.
Qed.

Lemma tick_well_formed (v : ViewState) (resp : Response) (now_id now_ts : Z) :
  well_formed_log (ViewState.store v) ->
  well_formed_log (ViewState.store (tick_ now_id now_ts resp v)).
Proof.
  intro Hwf.
  destruct (tick_cases_store v resp now_id now_ts)
    as [[Hm Hsel] | (turn & Hturn & Hs)].
  - exact (well_formed_log_same _ _ Hm Hsel Hwf).
  - rewrite Hs.
    destruct (store_after_turn_frame (ViewState.store v)
                (TurnResult.model turn) (retries_of v (TurnResult.model turn))
                now_id now_ts (outcome_of resp))
      as (Hsel & _ & _ & _ & _ & _ & Hm).
    destruct (outcome_of resp) as [fullContent | e].
    2:{ rewrite app_nil_r in Hm. exact (well_formed_log_same _ _ Hm Hsel Hwf). }
    destruct Hturn as (_ & _ & _ & _ & _ & _ & Hnext).
    destruct (getNextTurn_first_silent _ _ Hnext)
      as (earlier & later & Hsplit & Hsilent & _).
    simpl in Hsplit, Hsilent.
    refine (well_formed_log_snoc _ _ _ Hm Hsel _ _ Hwf); simpl.
    + rewrite Hsplit. apply in_or_app. right. now left.
    + exact Hsilent.
Qed.

Lemma reachable_well_formed (v : ViewState) :
  reachable_ v -> well_formed_log (ViewState.store v).
Proof.
  induction 1 as [v Hstart | v now_id now_ts resp _ IH | v _ IH].
  - destruct Hstart as (_ & _ & Hlog & Hsel & _).
    unfold well_formed_log. rewrite Hlog. split; [assumption |].
    split; [intros; constructor | intros u []].
  - now apply tick_well_formed.
  - refine (well_formed_log_same _ _ _ _ IH); now destruct v.
Qed.

(** On a well-formed log the round check is a statement about who spoke. *)
Lemma shouldAdvanceRound_all_spoke (s : DebateState) :
  well_formed_log s ->
  (shouldAdvanceRound (config_of s) = true
   <-> forall m, In m (DebateState.selectedModels s) ->
         has_spoken (DebateState.messages s) (DebateState.stage s)
                    (DebateState.round s) m = true)
  /\ (shouldAdvanceRound (config_of s) = true ->
      List.length (stageMessages (DebateState.messages s) (DebateState.stage s)
                                 (DebateState.round s))
      = List.length (DebateState.selectedModels s)).
Proof.
  intros (Hsel & Hone & Hby).
  unfold shouldAdvanceRound. simpl.
  set (said := stageMessages _ _ _).
  assert (Hincl : incl (speakers (DebateState.messages s) (DebateState.stage s)
                                 (DebateState.round s))
                       (DebateState.selectedModels s)).
  { intros m Hm. unfold speakers in Hm. apply in_map_iff in Hm.
    destruct Hm as (u & <- & Hu). apply filter_In in Hu. now apply Hby. }
  assert (Hle : (List.length said
                 <= List.length (DebateState.selectedModels s))%nat).
  { unfold said. rewrite <- (length_map Message.model).
    apply NoDup_incl_length; [apply Hone | exact Hincl]. }
  rewrite Nat.leb_le. split; [split |].
  - intros Hge m Hm. apply has_spoken_In.
    refine (NoDup_length_incl (Hone _ _) _ Hincl m Hm).
    unfold speakers. now rewrite length_map.
  - intro Hall. unfold said. rewrite <- (length_map Message.model).
    apply NoDup_incl_length; [assumption |].
    intros m Hm. now apply has_spoken_In, Hall.
  - lia.
Qed.

(** C2 (amended): in every state a session reaches, the round check holds
    exactly when every participating agent, abstained or not, has an
    utterance for the current stage and round; no agent has two utterances
    for the pair; a tick advances the round only when the check holds, and
    at that moment the number of utterances for the pair is exactly the
    number of participating agents. *)
Theorem C2_round_advance_counts_everyone (v : ViewState) (resp : Response) :
  reachable_ v ->
  let s := ViewState.store v in
  let said := stageMessages (DebateState.messages s) (DebateState.stage s)
                            (DebateState.round s) in
  (shouldAdvanceRound (config_of s) = true
   <-> forall m, In m (DebateState.selectedModels s) ->
         has_spoken (DebateState.messages s) (DebateState.stage s)
                    (DebateState.round s) m = true)
  /\ NoDup (map Message.model said)
  /\ (runTurn_ v resp = [OnStore (Store.SetRound (DebateState.round s + 1))] ->
      shouldAdvanceRound (config_of s) = true
      /\ List.length said = List.length (DebateState.selectedModels s)).
Proof.
  intros Hreach s said.
  pose proof (reachable_well_formed v Hreach) as Hwf.
  destruct (shouldAdvanceRound_all_spoke s Hwf) as [Hiff Hcount].
  split; [exact Hiff |].
  split; [apply Hwf |].
  intro Hrun.
  assert (Hsar : shouldAdvanceRound (config_of s) = true).
  { pose proof (runTurn_kind v resp) as K. rewrite Hrun in K.
    remember [OnStore (Store.SetRound (DebateState.round s + 1))] as effs
      eqn:Heffs in K.
    destruct K as [ | | | | _ _ Hsar | | turn Hsel]; try discriminate Heffs.
    - exact Hsar.
    - destruct (executeTurn_moves_nothing v turn resp) as (_ & _ & Hno).
      exfalso. apply Hno. rewrite Heffs. split.
      + eexists. now left.
      + intros [st [Hin | []]]. discriminate Hin. }
  split; [assumption | now apply Hcount].
Qed.

(** A failed turn changes nothing the scheduler looks at. *)
Lemma failed_turn_keeps_config (v : ViewState) (turn : TurnResult)
    (resp : Response) (now_id now_ts : Z) (e : Thrown) :
  selects_ v turn ->
  outcome_of resp = Failed e ->
  let v' := tick_ now_id now_ts resp v in
  config_of (ViewState.store v') = config_of (ViewState.store v)
  /\ DebateState.isPaused (ViewState.store v')
     = DebateState.isPaused (ViewState.store v)
  /\ DebateState.isComplete (ViewState.store v')
     = DebateState.isComplete (ViewState.store v)
  /\ ViewState.isRunning v' = false.
Proof.
  intros Hsel Hout v'. subst v'.
  rewrite (tick_selected _ _ _ _ _ Hsel), Hout.
  cbn [ViewState.store ViewState.isRunning].
  destruct (store_after_turn_frame (ViewState.store v)
              (TurnResult.model turn) (retries_of v (TurnResult.model turn))
              now_id now_ts (Failed e))
    as (Hsm & Htopic & Hstage & Hround & Hp & Hc & Hm).
  rewrite app_nil_r in Hm.
  unfold config_of. rewrite Hsm, Htopic, Hstage, Hround, Hm.
  now repeat split.
Qed.

(** The request a turn posts. *)
Lemma executeTurn_fetch (v : ViewState) (turn : TurnResult) (resp : Response) :
  filter is_fetch (executeTurn v turn resp)
  = [ Fetch (ChatRequest.mk
               (TurnResult.model turn)
               (AIState.apiKey
                  (PerModel.get (DebateState.aiStates (ViewState.store v))
                                (TurnResult.model turn)))
               (TurnResult.systemPrompt turn)
               (TurnResult.contextMessages turn
                  ++ [ContextMessage.mk user (TurnResult.prompt turn)])) ].
Proof.
  unfold executeTurn.
  pose proof (attempt_publishes resp) as Hpub.
  destruct (attempt resp) as [published outcome]; simpl in Hpub |- *.
  rewrite filter_app, (published_no_fetch _ Hpub). simpl.
  rewrite filter_app. simpl. rewrite app_nil_r.
  destruct outcome as [fullContent | e]; [reflexivity |].
  destruct (isCredentialError _); [reflexivity |].
  now destruct (_ <? _).
Qed.

Lemma setAIStatus_twice (m : AIModel) (a b : AIStatus) (s : DebateState) :
  Store.setAIStatus m b (Store.setAIStatus m a s) = Store.setAIStatus m b s.
Proof. now destruct s, m. Qed.

Lemma selects_timerArmed (v : ViewState) (turn : TurnResult) :
  selects_ v turn -> timerArmed v = true.
Proof.
  intros (Hp & Hc & Hr & _ & _ & _ & Hnext).
  unfold timerArmed. rewrite Hp, Hc, Hr.
  unfold getNextTurn in Hnext. simpl in Hnext.
  now destruct (DebateState.stage (ViewState.store v)).
Qed.

(** C6 (amended): when the selected agent's turn fails with a credential
    error (the message mentions 401, API key or Incorrect), the agent's
    status becomes [abstained] at once, the invalid-key notice is surfaced
    as the terminal error, every retry counter is left as it was (so it
    stays 0 on a first attempt), no utterance is committed, and the tick has
    posted one request.  That is not the last request, though: the session
    is left with the timer armed and the same agent selected with the same
    directive, so the next tick posts the same request to the refused agent
    again, whatever the service answers; and a tick whose answer is a
    credential error once more leaves the state exactly as it is, so this
    repeats on every tick for as long as the key is refused. *)
Theorem C6_credential_failure (v : ViewState) (turn : TurnResult)
    (resp : Response) (now_id now_ts : Z) (e : Thrown) :
  selects_ v turn ->
  outcome_of resp = Failed e ->
  isCredentialError (errorMessage_of e) = true ->
  let m := TurnResult.model turn in
  let v' := tick_ now_id now_ts resp v in
  let request :=
    ChatRequest.mk m
      (AIState.apiKey
         (PerModel.get (DebateState.aiStates (ViewState.store v)) m))
      (TurnResult.systemPrompt turn)
      (TurnResult.contextMessages turn
         ++ [ContextMessage.mk user (TurnResult.prompt turn)]) in
  status_of (ViewState.store v') m = abstained
  /\ ViewState.apiError v' = Some (ApiError.mk m (invalidKeyNotice m))
  /\ ViewState.retryCount v' = ViewState.retryCount v
  /\ (retries_of v m = 0 -> retries_of v' m = 0)
  /\ DebateState.messages (ViewState.store v')
     = DebateState.messages (ViewState.store v)
  /\ filter is_fetch (runTurn_ v resp) = [Fetch request]
  /\ timerArmed v' = true
  /\ selects_ v' turn
  /\ (forall resp', filter is_fetch (runTurn_ v' resp') = [Fetch request])
  /\ (forall resp' now_id' now_ts' e',
        outcome_of resp' = Failed e' ->
        isCredentialError (errorMessage_of e') = true ->
        tick_ now_id' now_ts' resp' v' = v').
Proof.
  intros Hsel Hout Hcred m v' request.
  assert (Hsel' : selects_ v' turn).
  { destruct (failed_turn_keeps_config v turn resp now_id now_ts e Hsel Hout)
      as (Hcfg & Hp & Hc & Hr).
    fold v' in Hcfg, Hp, Hc, Hr.
    destruct Hsel as (Hp0 & Hc0 & _ & Hcc & Hadv & Hsar & Hnext).
    unfold selects. rewrite Hcfg, Hp, Hc, Hr. now repeat split. }
  assert (Hv' : v' = ViewState.mk
                       (Store.setAIStatus m abstained (ViewState.store v))
                       EmptyString None false (ViewState.retryCount v)
                       (Some (ApiError.mk m (invalidKeyNotice m)))).
  { subst v'. rewrite (tick_selected _ _ _ _ _ Hsel), Hout. fold m.
    unfold store_after_turn, retryCount_after_turn, apiError_after_turn.
    rewrite Hcred. now rewrite setAIStatus_twice. }
  assert (Hkey : AIState.apiKey
                   (PerModel.get (DebateState.aiStates (ViewState.store v')) m)
                 = AIState.apiKey
                     (PerModel.get (DebateState.aiStates (ViewState.store v)) m)).
  { rewrite Hv'. simpl. now rewrite PerModel_get_set_same. }
  split.
  { rewrite Hv'. unfold status_of. simpl. now rewrite PerModel_get_set_same. }
  split; [now rewrite Hv' |].
  split; [now rewrite Hv' |].
  split; [rewrite Hv'; now unfold retries_of |].
  split; [now rewrite Hv' |].
  split; [rewrite (runTurn_selected _ _ resp Hsel); apply executeTurn_fetch |].
  split; [exact (selects_timerArmed _ _ Hsel') |].
  split; [exact Hsel' |].
  split.
  - intro resp'. rewrite (runTurn_selected _ _ resp' Hsel').
    rewrite executeTurn_fetch. fold m. now rewrite Hkey.
  - intros resp' now_id' now_ts' e' Hout' Hcred'.
    rewrite (tick_selected _ _ _ _ _ Hsel'), Hout'. fold m.
    unfold store_after_turn, retryCount_after_turn, apiError_after_turn.
    rewrite Hcred'. rewrite Hv'. simpl.
    now rewrite !setAIStatus_twice.
Qed.

(** C3 (amended): the next-turn selection picks the first participant, in
    the fixed order of [selectedModels], that has no utterance for the
    current stage and round; it does not read any agent's status.  After a
    turn that failed, whether the failure left the agent [idle] or
    [abstained], the session is again in a state where the scheduler selects
    the same agent with the same directive. *)
Theorem C3_selection_ignores_status (v : ViewState) (turn : TurnResult)
    (resp : Response) (now_id now_ts : Z) (e : Thrown) :
  selects_ v turn ->
  outcome_of resp = Failed e ->
  let m := TurnResult.model turn in
  let s := ViewState.store v in
  let v' := tick_ now_id now_ts resp v in
  (exists earlier later,
     DebateState.selectedModels s = earlier ++ m :: later
     /\ has_spoken (DebateState.messages s) (DebateState.stage s)
                   (DebateState.round s) m = false
     /\ forall m', In m' earlier ->
          has_spoken (DebateState.messages s) (DebateState.stage s)
                     (DebateState.round s) m' = true)
  /\ (status_of (ViewState.store v') m = idle
      \/ status_of (ViewState.store v') m = abstained)
  /\ selects_ v' turn.
Proof.
  intros Hsel Hout m s v'.
  destruct (failed_turn_keeps_config v turn resp now_id now_ts e Hsel Hout)
    as (Hcfg & Hp & Hc & Hr).
  fold v' in Hcfg, Hp, Hc, Hr.
  pose proof Hsel as (Hp0 & Hc0 & _ & Hcc & Hadv & Hsar & Hnext).
  split; [exact (getNextTurn_first_silent _ _ Hnext) |].
  split.
  - subst v'. rewrite (tick_selected _ _ _ _ _ Hsel), Hout. fold m.
    unfold store_after_turn, status_of. simpl.
    destruct (isCredentialError _); [| destruct (_ <? _)]; simpl;
      rewrite !PerModel_get_set_same; simpl; auto.
  - unfold selects. rewrite Hcfg, Hp, Hc, Hr. now repeat split.
Qed.

End Protocol.

(* ------------------------------------------------------------------ *)
(** ** The claims on concrete sessions *)

Definition gpt_spoke : ViewState := tick0 1000 1000 (say "Tabs.") two_party_start.

Definition both_spoke : ViewState := tick0 1001 1001 (say "Spaces.") gpt_spoke.

Definition opening_turn : TurnResult :=
  TurnResult.mk gpt "tabs or spaces" "system" [].

Definition gemini_turn : TurnResult :=
  TurnResult.mk gemini "tabs or spaces" "system"
                [ContextMessage.mk user "[GPT]: Tabs."].

(** A stream that ends normally without a single content fragment. *)
Definition silence : Response := Stream [Ignored; Parsed None None] None.

Lemma two_party_start_begins :
  session_start two_party_start.
Proof.
  repeat split. repeat constructor; simpl; intuition discriminate.
Qed.

Lemma gpt_spoke_reachable :
  reachable plainSystemPrompt plainStagePrompt gpt_spoke.
Proof.
  apply reach_tick, reach_start, two_party_start_begins.
Qed.

Lemma opening_turn_selected :
  selects plainSystemPrompt plainStagePrompt two_party_start opening_turn.
Proof. now repeat split. Qed.

Lemma gemini_turn_selected :
  selects plainSystemPrompt plainStagePrompt gpt_spoke gemini_turn.
Proof. now repeat split. Qed.

(** The claims as the specification words them, for the abstained agent. *)

Definition round_waits_for_non_abstained (s : DebateState) : Prop :=
  let said := stageMessages (DebateState.messages s) (DebateState.stage s)
                            (DebateState.round s) in
  (shouldAdvanceRound (config_of s) = true ->
   List.length said
   = List.length (filter (fun m => negb (AIStatus_eqb (status_of s m) abstained))
                         (DebateState.selectedModels s)))
  /\ ((forall m, In m (DebateState.selectedModels s) ->
                 status_of s m <> abstained ->
                 has_spoken (DebateState.messages s) (DebateState.stage s)
                            (DebateState.round s) m = true) ->
      shouldAdvanceRound (config_of s) = true).

Definition never_selects_abstained
    (getSystemPrompt : AIModel -> string)
    (getStagePrompt :
       DebateStage -> string -> list Message -> option string -> Z -> string)
    (s : DebateState) : Prop :=
  forall m turn,
    status_of s m = abstained ->
    getNextTurn getSystemPrompt getStagePrompt (config_of s) = Some turn ->
    TurnResult.model turn <> m.

(** C2 as worded fails: after gpt has spoken and gemini's key was refused,
    every non-abstained participant has spoken in the round, yet the round
    check still answers false. *)
Lemma C2_abstained_agent_blocks_round :
  ~ (forall getSystemPrompt getStagePrompt v,
       reachable getSystemPrompt getStagePrompt v ->
       round_waits_for_non_abstained (ViewState.store v)).
Proof.
  intro H.
  assert (Hreach : reachable plainSystemPrompt plainStagePrompt gemini_refused)
    by apply reach_tick, gpt_spoke_reachable.
  destruct (H _ _ _ Hreach) as [_ Hcheck].
  enough (Hsar : shouldAdvanceRound (config_of (ViewState.store gemini_refused))
                 = true) by discriminate Hsar.
  apply Hcheck. intros m [<- | [<- | []]] Hstatus.
  - reflexivity.
  - now elim Hstatus.
Qed.

(** C3 as worded fails: in the same state gemini is abstained and is the
    agent the scheduler selects. *)
Lemma C3_abstained_agent_selected_again :
  ~ (forall getSystemPrompt getStagePrompt v,
       reachable getSystemPrompt getStagePrompt v ->
       never_selects_abstained getSystemPrompt getStagePrompt
                               (ViewState.store v)).
Proof.
  intro H.
  assert (Hreach : reachable plainSystemPrompt plainStagePrompt gemini_refused)
    by apply reach_tick, gpt_spoke_reachable.
  refine (H _ _ _ Hreach gemini gemini_turn _ _ _); reflexivity.
Qed.

(** C6 as the specification words it: after a credential failure no
    request goes out to the refused agent any more. *)
Definition refused_agent_left_alone
    (getSystemPrompt : AIModel -> string)
    (getStagePrompt :
       DebateStage -> string -> list Message -> option string -> Z -> string)
  : Prop :=
  forall v turn resp now_id now_ts e,
    reachable getSystemPrompt getStagePrompt v ->
    selects getSystemPrompt getStagePrompt v turn ->
    outcome_of resp = Failed e ->
    isCredentialError (errorMessage_of e) = true ->
    forall resp' request,
      In (Fetch request)
         (runTurn getSystemPrompt getStagePrompt
                  (tick getSystemPrompt getStagePrompt now_id now_ts resp v)
                  resp') ->
      ChatRequest.model request <> TurnResult.model turn.

(** C6 as worded fails: gemini's key has been refused, and the next tick
    posts gemini's request again. *)
Lemma C6_refused_agent_requested_again :
  ~ (forall getSystemPrompt getStagePrompt,
       refused_agent_left_alone getSystemPrompt getStagePrompt).
Proof.
  intro H.
  refine (H plainSystemPrompt plainStagePrompt gpt_spoke gemini_turn bad_key
            1001 1001 (ErrorObj "401 Incorrect API key provided")
            gpt_spoke_reachable gemini_turn_selected eq_refl eq_refl
            bad_key
            (ChatRequest.mk gemini "k2" "system"
               [ ContextMessage.mk user "[GPT]: Tabs.";
                 ContextMessage.mk user "tabs or spaces" ])
            _ eq_refl).
  vm_compute. tauto.
Qed.

(** C7 as worded fails: [updateStreamingMessage] for gpt overwrites the text
    of the utterance gpt has already committed for the round. *)
Lemma C7_updateStreamingMessage_edits :
  ~ (forall (a : Store.Action) (now_id now_ts : Z) (s : DebateState),
       log_extended (DebateState.messages s)
                    (DebateState.messages (Store.dispatch a now_id now_ts s))).
Proof.
  intro H.
  destruct (H (Store.UpdateStreamingMessage gpt "Spaces.") 2000 2000
              (ViewState.store gpt_spoke)) as [suffix Hsuffix].
  vm_compute in Hsuffix. discriminate Hsuffix.
Qed.

(** *** Instances *)

Lemma both_spoke_reachable :
  reachable plainSystemPrompt plainStagePrompt both_spoke.
Proof. apply reach_tick, gpt_spoke_reachable. Qed.

(** When both agents have taken their position the tick advances the round,
    and two utterances stand for the two participants. *)
Lemma C2_two_party_round :
  shouldAdvanceRound (config_of (ViewState.store both_spoke)) = true
  /\ List.length (stageMessages
                    (DebateState.messages (ViewState.store both_spoke))
                    position 0)
     = 2%nat.
Proof.
  apply (C2_round_advance_counts_everyone
           plainSystemPrompt plainStagePrompt both_spoke outage
           both_spoke_reachable).
  vm_compute. reflexivity.
Defined.

(** gemini, refused for its key, is what the scheduler selects next. *)
Lemma C3_gemini_selected_after_refusal :
  selects plainSystemPrompt plainStagePrompt gemini_refused gemini_turn.
Proof.
  apply (C3_selection_ignores_status
           plainSystemPrompt plainStagePrompt gpt_spoke gemini_turn bad_key
           1001 1001 (ErrorObj "401 Incorrect API key provided")
           gemini_turn_selected eq_refl).
Defined.

(** With both positions in, the one action of the tick is the round advance. *)
Lemma C4_round_advance_only :
  runTurn plainSystemPrompt plainStagePrompt both_spoke outage
  = [OnStore (Store.SetRound 1)].
Proof.
  apply (C4_priority_order plainSystemPrompt plainStagePrompt both_spoke
           outage 0 0 eq_refl eq_refl eq_refl); reflexivity.
Defined.

(** An outage on gpt's first attempt: one retry counted, gpt idle again. *)
Lemma C5_outage_first_attempt :
  retries_of (tick0 1000 1000 outage two_party_start) gpt = 1
  /\ status_of (ViewState.store (tick0 1000 1000 outage two_party_start)) gpt
     = idle
  /\ ViewState.apiError (tick0 1000 1000 outage two_party_start) = None.
Proof.
  apply (C5_transient_failure plainSystemPrompt plainStagePrompt
           two_party_start opening_turn outage 1000 1000
           (ErrorObj "API request failed") opening_turn_selected
           eq_refl eq_refl).
  reflexivity.
Defined.

(** gemini's key is refused on its first attempt, and the tick after that
    asks gemini again. *)
Lemma C6_refused_key_first_attempt :
  let request :=
    ChatRequest.mk gemini "k2" "system"
      [ ContextMessage.mk user "[GPT]: Tabs.";
        ContextMessage.mk user "tabs or spaces" ] in
  status_of (ViewState.store gemini_refused) gemini = abstained
  /\ ViewState.apiError gemini_refused
     = Some (ApiError.mk gemini (invalidKeyNotice gemini))
  /\ ViewState.retryCount gemini_refused = ViewState.retryCount gpt_spoke
  /\ (retries_of gpt_spoke gemini = 0 -> retries_of gemini_refused gemini = 0)
  /\ DebateState.messages (ViewState.store gemini_refused)
     = DebateState.messages (ViewState.store gpt_spoke)
  /\ filter is_fetch
            (runTurn plainSystemPrompt plainStagePrompt gpt_spoke bad_key)
     = [Fetch request]
  /\ timerArmed gemini_refused = true
  /\ selects plainSystemPrompt plainStagePrompt gemini_refused gemini_turn
  /\ (forall resp',
        filter is_fetch
               (runTurn plainSystemPrompt plainStagePrompt gemini_refused resp')
        = [Fetch request])
  /\ (forall resp' now_id' now_ts' e',
        outcome_of resp' = Failed e' ->
        isCredentialError (errorMessage_of e') = true ->
        tick0 now_id' now_ts' resp' gemini_refused = gemini_refused).
Proof.
  exact (C6_credential_failure plainSystemPrompt plainStagePrompt
           gpt_spoke gemini_turn bad_key 1001 1001
           (ErrorObj "401 Incorrect API key provided")
           gemini_turn_selected eq_refl eq_refl).
Defined.

(** [addMessage] puts the new utterance at the end of the log. *)
Lemma C7_addMessage_extends :
  DebateState.messages
    (Store.dispatch
       (Store.AddMessage (NewMessage.mk gemini "Spaces." position 0))
       1001 1001 (ViewState.store gpt_spoke))
  = DebateState.messages (ViewState.store gpt_spoke)
    ++ [Message.mk "gemini-1001" gemini "Spaces." position 0 1001].
Proof.
  apply (C7_log_append_only plainSystemPrompt plainStagePrompt
           (Store.AddMessage (NewMessage.mk gemini "Spaces." position 0))
           gemini "Spaces." 1001 1001 (ViewState.store gpt_spoke) gpt_spoke
           outage).
  reflexivity.
Defined.

(** gemini's refused turn leaves stage, round and gpt's state alone. *)
Lemma C8_refused_turn_frame :
  DebateState.stage (ViewState.store gemini_refused) = position
  /\ DebateState.round (ViewState.store gemini_refused) = 0
  /\ PerModel.get (DebateState.aiStates (ViewState.store gemini_refused)) gpt
     = PerModel.get (DebateState.aiStates (ViewState.store gpt_spoke)) gpt.
Proof.
  pose proof (C8_turn_frame plainSystemPrompt plainStagePrompt gpt_spoke
                gemini_turn bad_key 1001 1001 gemini_turn_selected) as H.
  cbv zeta in H.
  destruct H as (_ & Hstage & Hround & _ & _ & _ & _ & Hothers & _).
  split; [exact Hstage |]. split; [exact Hround |].
  apply (Hothers gpt). discriminate.
Defined.

(** A silent stream still commits an utterance for gpt, with no text. *)
Lemma C10_silent_stream :
  DebateState.messages
    (ViewState.store (tick0 1000 1000 silence two_party_start))
  = [Message.mk "gpt-1000" gpt "" position 0 1000]
  /\ status_of (ViewState.store (tick0 1000 1000 silence two_party_start)) gpt
     = complete
  /\ retries_of (tick0 1000 1000 silence two_party_start) gpt = 0
  /\ usage_of (ViewState.store (tick0 1000 1000 silence two_party_start)) gpt
     = 0.
Proof.
  apply (C10_empty_text_is_committed plainSystemPrompt plainStagePrompt
           two_party_start opening_turn silence 1000 1000
           opening_turn_selected eq_refl).
Defined.

(* ================================================================== *)
(** * The rest of the engine, the store and the views *)

(** ** lib/debate-engine.ts: [getStageProgress] *)

Module StageProgress.
Record t : Set := mk { current : Z; max : Z; label : string }.
End StageProgress.

Definition stageLabel (stage : DebateStage) : string :=
  match stage with
  | topic_input => ""
  | model_select => ""
  | position => "입장 제시"
  | cross_exam => "교차 질문"
  | common_ground => "공통점 추출"
  | consensus => "합의안 도출"
  | result => "결과"
  end.

Definition getStageProgress (config : DebateConfig) : StageProgress.t :=
  let stageMessages :=
    stageMessages (DebateConfig.messages config) (DebateConfig.stage config)
                  (DebateConfig.round config) in
  let turnsInRound := Z.of_nat (List.length stageMessages) in
  StageProgress.mk turnsInRound
                   (Z.of_nat (List.length (DebateConfig.selectedModels config)))
                   (stageLabel (DebateConfig.stage config)).

(** ** components/TokenCounter.tsx *)

(** [selectedModels.reduce((sum, model) => sum + aiStates[model].tokenUsage, 0)] *)
Definition totalTokens (s : DebateState) : Z :=
  fold_left (fun sum model => sum + usage_of s model)
            (DebateState.selectedModels s) 0.

(** ** components/DebateView.tsx: mounting and the tick timer *)


(** ** The pages before the debate *)



(** ** Choosing the participants *)

Lemma existsb_AIModel_In (m : AIModel) (l : list AIModel) :
  existsb (AIModel_eqb m) l = true <-> In m l.
Proof.
  rewrite existsb_exists. split.
  - intros (x & Hin & Heq). apply AIModel_eqb_eq in Heq. now subst.
  - intro Hin. exists m. split; [assumption | apply AIModel_eqb_refl].
Qed.

Lemma remove_model_length (model : AIModel) (l : list AIModel) :
  NoDup l -> In model l ->
  S (List.length (filter (fun m => negb (AIModel_eqb m model)) l))
  = List.length l.
Proof.
  induction l as [| x l IH]; intros Hnd Hin; [destruct Hin |].
  apply NoDup_cons_iff in Hnd. destruct Hnd as [Hx Hl]. simpl.
  destruct (AIModel_eqb x model) eqn:Hxm; simpl.
  - apply AIModel_eqb_eq in Hxm. subst x. f_equal.
    clear IH Hin Hl. induction l as [| y l IHl]; [reflexivity |].
    simpl. destruct (AIModel_eqb y model) eqn:Hy.
    + apply AIModel_eqb_eq in Hy. subst y. elim Hx. now left.
    + simpl. f_equal. apply IHl. intro H. apply Hx. now right.
  - f_equal. apply IH; [assumption |].
    destruct Hin as [-> | Hin]; [| assumption].
    now rewrite AIModel_eqb_refl in Hxm.
Qed.

(** X1: on a list of participants without repetition, [toggleModel] keeps
    the list free of repetition, flips the membership of the toggled model
    and of no other, and appends a newly selected model at the end, leaving
    the order of the others as it was. *)
Theorem toggleModel_flips_membership (model : AIModel) (s : DebateState) :
  NoDup (DebateState.selectedModels s) ->
  let before := DebateState.selectedModels s in
  let after := DebateState.selectedModels (Store.toggleModel model s) in
  NoDup after
  /\ (In model after <-> ~ In model before)
  /\ (forall m, m <> model -> (In m after <-> In m before))
  /\ (~ In model before -> after = before ++ [model])
  /\ (In model before ->
      after = filter (fun m => negb (AIModel_eqb m model)) before
      /\ S (List.length after) = List.length before).
Proof.
  intros Hnd before after. subst after. unfold Store.toggleModel. simpl.
  fold before.
  destruct (existsb (AIModel_eqb model) before) eqn:Hin.
  - apply existsb_AIModel_In in Hin.
    assert (Hmem : forall m, In m (filter (fun m => negb (AIModel_eqb m model))
                                          before)
                             <-> In m before /\ m <> model).
    { intro m. rewrite filter_In, negb_true_iff, AIModel_eqb_neq. tauto. }
    split; [now apply NoDup_filter |].
    split; [rewrite Hmem; tauto |].
    split; [intros m Hm; rewrite Hmem; tauto |].
    split; [tauto |]. intros _. split; [reflexivity |].
    now apply remove_model_length.
  - assert (Hout : ~ In model before).
    { intro H. apply existsb_AIModel_In in H. congruence. }
    split; [now apply NoDup_snoc |].
    split; [rewrite in_app_iff; simpl; tauto |].
    split.
    + intros m Hm. rewrite in_app_iff. simpl. split; [| tauto].
      intros [H | [H | []]]; [assumption | congruence].
    + split; [reflexivity | contradiction].
Qed.

(** ** The consensus hint and the detector *)

(** X2: [canReachConsensus] and [checkConsensus] use the same floor: the
    hint says consensus is possible exactly when no round remains, the
    remaining rounds are [max 0 (3 - round)], and whenever the detector
    answers true the hint says consensus is possible. *)
Theorem canReachConsensus_agrees_with_detector (config : DebateConfig) :
  let hint := canReachConsensus (DebateConfig.round config) in
  (ConsensusHint.canConsensus hint = true
   <-> ConsensusHint.remainingRounds hint = 0)
  /\ 0 <= ConsensusHint.remainingRounds hint
  /\ (DebateConfig.round config <= 3 ->
      DebateConfig.round config + ConsensusHint.remainingRounds hint = 3)
  /\ (checkConsensus config = true -> ConsensusHint.canConsensus hint = true)
  /\ (ConsensusHint.canConsensus hint = false -> checkConsensus config = false).
Proof.
  unfold canReachConsensus, checkConsensus, MIN_CONSENSUS_ROUND.
  cbn [ConsensusHint.canConsensus ConsensusHint.remainingRounds].
  destruct (Z.leb_spec 3 (DebateConfig.round config)) as [Hge | Hlt].
  - repeat split; intros; try lia; try congruence.
  - assert (Hlow : (DebateConfig.round config <? 3) = true)
      by now apply Z.ltb_lt.
    rewrite Hlow.
    repeat split; intros; try lia; try congruence;
      now destruct (negb _).
Qed.

(** ** The proposal under discussion *)

(** A byte below 128: an ASCII character. *)
Definition plain (c : ascii) : bool :=
  match c with Ascii _ _ _ _ _ _ _ b7 => negb b7 end.

Fixpoint plain_text (s : string) : bool :=
  match s with
  | EmptyString => true
  | String c rest => plain c && plain_text rest
  end.

Fixpoint no_plain (s : string) : bool :=
  match s with
  | EmptyString => true
  | String c rest => negb (plain c) && no_plain rest
  end.

Lemma code_units_le (c : ascii) : (code_units c <= 2)%nat.
Proof. destruct c as [? ? ? ? [] [] [] []]; simpl; lia. Qed.

Lemma js_length_app (a b : string) :
  js_length (a ++ b) = (js_length a + js_length b)%nat.
Proof. induction a as [| c a IH]; simpl; [reflexivity | rewrite IH; lia]. Qed.

Lemma high_surrogate_no_plain (c : ascii) (rest : string) :
  no_plain (high_surrogate c rest) = true.
Proof.
  destruct rest as [| [] [| [] rest]], c; reflexivity.
Qed.

Lemma high_surrogate_length (c : ascii) (rest : string) :
  js_length (high_surrogate c rest) = 1%nat.
Proof.
  destruct rest as [| [] [| [] rest]], c; reflexivity.
Qed.

(** The slice has [n] code units, or all of them when there are fewer. *)
Lemma slice0_length (n : nat) (s : string) :
  js_length (slice0 n s) = Nat.min n (js_length s).
Proof.
  revert n. induction s as [| c s IH]; intro n; simpl.
  - now rewrite Nat.min_0_r.
  - pose proof (code_units_le c) as Hc.
    destruct (Nat.leb_spec (code_units c) n) as [Hle | Hgt]; simpl.
    + rewrite IH. lia.
    + destruct (Nat.eqb_spec n 1) as [-> | Hn].
      * rewrite high_surrogate_length. lia.
      * simpl. lia.
Qed.

(** Text of at most [n] code units at the head of a string is kept whole. *)
Lemma slice0_app (n : nat) (a b : string) :
  (js_length a <= n)%nat ->
  slice0 n (a ++ b) = (a ++ slice0 (n - js_length a) b)%string.
Proof.
  revert n. induction a as [| c a IH]; intros n Hn; simpl in *.
  - now rewrite Nat.sub_0_r.
  - destruct (Nat.leb_spec (code_units c) n) as [Hle | Hgt]; [| lia].
    rewrite IH by lia. now rewrite Nat.sub_add_distr.
Qed.

Lemma prefix_app (needle post : string) :
  String.prefix needle (needle ++ post) = true.
Proof.
  induction needle as [| a needle IH]; simpl; [now destruct post |].
  now destruct (ascii_dec a a).
Qed.

Lemma includes_unfold (needle hay : string) :
  includes needle hay
  = String.prefix needle hay
    || match hay with
       | EmptyString => false
       | String _ rest => includes needle rest
       end.
Proof. now destruct hay. Qed.

Lemma includes_app (before needle after : string) :
  includes needle (before ++ needle ++ after) = true.
Proof.
  induction before as [| c before IH].
  - simpl append. now rewrite includes_unfold, prefix_app.
  - simpl. rewrite IH. apply orb_true_r.
Qed.

Lemma includes_no_plain (needle s : string) :
  plain_text needle = true -> no_plain s = true ->
  includes needle s = true -> needle = EmptyString.
Proof.
  intros Hneedle. induction s as [| c s IH]; simpl; intros Hs H.
  - destruct needle; [reflexivity | discriminate].
  - destruct needle as [| a needle]; [reflexivity |].
    apply andb_true_iff in Hs. destruct Hs as [Hc Hs].
    simpl in Hneedle. apply andb_true_iff in Hneedle.
    destruct Hneedle as [Ha Hneedle'].
    simpl in H. destruct (ascii_dec a c) as [-> | _].
    + rewrite Ha in Hc. discriminate.
    + simpl in H. apply IH; [assumption | exact H].
Qed.

(** Plain text at the head of a slice is at the head of the string, within
    the code units the slice keeps. *)
Lemma prefix_slice0 (needle s : string) (n : nat) :
  plain_text needle = true ->
  String.prefix needle (slice0 n s) = true ->
  exists after,
    s = (needle ++ after)%string /\ (js_length needle <= n)%nat.
Proof.
  revert s n. induction needle as [| a needle IH]; intros s n Hplain H.
  - exists s. split; [reflexivity | simpl; lia].
  - simpl in Hplain. apply andb_true_iff in Hplain.
    destruct Hplain as [Ha Hplain].
    destruct s as [| c s]; [discriminate |].
    simpl in H.
    destruct (Nat.leb_spec (code_units c) n) as [Hle | Hgt].
    + simpl in H. destruct (ascii_dec a c) as [-> | _]; [| discriminate].
      destruct (IH s (n - code_units c)%nat Hplain H) as (after & -> & Hlen).
      exists after. split; [reflexivity | simpl; lia].
    + exfalso.
      assert (Hinc : includes (String a needle)
                              (if Nat.eqb n 1 then high_surrogate c s
                               else EmptyString) = true).
      { destruct (if Nat.eqb n 1 then high_surrogate c s else EmptyString);
          simpl in *; now rewrite H. }
      apply includes_no_plain in Hinc; [discriminate | |].
      * simpl. now rewrite Ha, Hplain.
      * destruct (Nat.eqb n 1); [apply high_surrogate_no_plain | reflexivity].
Qed.

(** Plain text is found in the first [n] code units of a string exactly
    when it stands in the string and ends within those [n] code units. *)
Lemma includes_slice0_iff (needle s : string) (n : nat) :
  plain_text needle = true ->
  includes needle (slice0 n s) = true
  <-> exists before after,
        s = (before ++ needle ++ after)%string
        /\ (js_length before + js_length needle <= n)%nat.
Proof.
  intro Hplain. split.
  - revert n. induction s as [| c s IH]; intros n H.
    + simpl in H. rewrite orb_false_r in H.
      destruct (prefix_slice0 needle EmptyString n Hplain H) as (after & Hs & Hn).
      exists EmptyString, after. split; [exact Hs | simpl; lia].
    + rewrite includes_unfold in H.
      destruct (String.prefix needle (slice0 n (String c s))) eqn:Hp.
      * destruct (prefix_slice0 needle _ n Hplain Hp) as (after & Hs & Hn).
        exists EmptyString, after. split; [exact Hs | simpl; lia].
      * cbn [orb slice0] in H.
        destruct (Nat.leb_spec (code_units c) n) as [Hle | Hgt].
        -- destruct (IH _ H) as (before & after & -> & Hn).
           exists (String c before), after.
           split; [reflexivity | simpl; lia].
        -- assert (needle = EmptyString) as ->.
           { assert (Ht : no_plain (if Nat.eqb n 1 then high_surrogate c s
                                    else EmptyString) = true)
               by (destruct (Nat.eqb n 1);
                   [apply high_surrogate_no_plain | reflexivity]).
             destruct (if Nat.eqb n 1 then high_surrogate c s else EmptyString)
               as [| x t]; [discriminate |].
             simpl in Ht. apply andb_true_iff in Ht.
             now apply (includes_no_plain _ t Hplain). }
           exists EmptyString, (String c s).
           split; [reflexivity | simpl; lia].
  - intros (before & after & -> & Hn).
    rewrite slice0_app by lia.
    rewrite slice0_app by lia.
    apply includes_app.
Qed.

(** Plain text found in the first [n] code units is found in the whole. *)
Lemma includes_slice0 (needle s : string) (n : nat) :
  plain_text needle = true ->
  includes needle (slice0 n s) = true -> includes needle s = true.
Proof.
  intros Hplain H.
  apply (includes_slice0_iff _ _ _ Hplain) in H.
  destruct H as (before & after & -> & _). apply includes_app.
Qed.

(** The counts on some texts: five Hangul syllables are five code units in
    fifteen bytes, a character outside the BMP is two code units, and a cut
    after its first leaves the high surrogate (here D83D, of U+1F600). *)
Lemma js_length_examples :
  js_length "Tabs." = 5%nat
  /\ js_length "안녕하세요" = 5%nat
  /\ js_length "😀" = 2%nat
  /\ slice0 2 "안녕하세요" = "안녕"
  /\ slice0 3 "a😀b" = "a😀"
  /\ slice0 2 "a😀b"
     = String "a" (String (ascii_of_nat 237) (String (ascii_of_nat 160)
                     (String (ascii_of_nat 189) EmptyString))).
Proof. repeat split. Qed.

(** An utterance of the consensus stage that does not open with the marker. *)
Definition open_proposal (u : Message) : bool :=
  DebateStage_eqb (Message.stage u) consensus
  && negb (includes CONSENSUS_MARKER (slice0 500 (Message.content u))).

(** The marker stands in [s] and ends within its first [n] code units. *)
Definition marker_within (n : nat) (s : string) : Prop :=
  exists before after,
    s = (before ++ CONSENSUS_MARKER ++ after)%string
    /\ (js_length before + js_length CONSENSUS_MARKER <= n)%nat.

Lemma open_proposal_spec (u : Message) :
  open_proposal u = true
  <-> Message.stage u = consensus /\ ~ marker_within 500 (Message.content u).
Proof.
  unfold open_proposal, marker_within.
  rewrite andb_true_iff, negb_true_iff, <- not_true_iff_false.
  rewrite (includes_slice0_iff CONSENSUS_MARKER _ 500 eq_refl).
  split; intros [Hs Hm]; (split; [| exact Hm]).
  - now apply DebateStage_eqb_eq.
  - rewrite Hs. reflexivity.
Qed.

(** X3: [findCurrentConsensus] returns the text of the most recent
    consensus-stage utterance whose first 500 code units do not contain the
    marker, and nothing exactly when every consensus-stage utterance has the
    marker among its first 500 code units.  Code units are those of the JS
    string: an utterance is left out exactly when its stage is not consensus
    or its text reads [before ++ marker ++ after] with the marker ending at
    or before code unit 500. *)
Theorem findCurrentConsensus_latest_open (messages : list Message) :
  (forall text,
     findCurrentConsensus messages = Some text
     <-> exists before u after,
           messages = before ++ u :: after
           /\ open_proposal u = true
           /\ Message.content u = text
           /\ forall u', In u' after -> open_proposal u' = false)
  /\ (findCurrentConsensus messages = None
      <-> forall u, In u messages -> open_proposal u = false)
  /\ (forall u,
        open_proposal u = true
        <-> Message.stage u = consensus
            /\ ~ marker_within 500 (Message.content u)).
Proof.
  unfold findCurrentConsensus. fold open_proposal.
  change (fun m : Message => open_proposal m) with open_proposal.
  split.
  - intro text. split.
    + destruct (last_elem (filter open_proposal messages)) as [u |] eqn:Hlast;
        [| discriminate].
      intros [= <-]. apply last_elem_Some in Hlast. destruct Hlast as [front Hf].
      destruct (filter_snoc_split _ _ _ _ Hf)
        as (before & after & Hsplit & Hu & Hafter).
      exists before, u, after. repeat split; try assumption.
      now apply filter_nil_iff.
    + intros (before & u & after & -> & Hu & <- & Hafter).
      rewrite (filter_split_snoc _ _ _ _ Hu), last_elem_snoc; [reflexivity |].
      now apply filter_nil_iff.
  - split; [| exact open_proposal_spec].
    rewrite <- filter_nil_iff.
    destruct (filter open_proposal messages) as [| x l] eqn:Hf.
    + now split.
    + split; [| discriminate].
      destruct (exists_last (l := x :: l)) as (front & y & Hy); [discriminate |].
      rewrite Hy, last_elem_snoc. discriminate.
Qed.

Fixpoint repeat_text (n : nat) (s : string) : string :=
  match n with
  | O => EmptyString
  | S n' => (s ++ repeat_text n' s)%string
  end.

(** A marker after 200 Hangul syllables (600 bytes) is within the first 500
    code units, so the utterance is no open proposal; after 500 syllables it
    is beyond them, and the utterance is one. *)
Lemma findCurrentConsensus_hangul :
  findCurrentConsensus
    [ Message.mk "gpt-1" gpt (repeat_text 200 "가" ++ CONSENSUS_MARKER)
                 consensus 3 1 ]
  = None
  /\ findCurrentConsensus
       [ Message.mk "gpt-1" gpt (repeat_text 500 "가" ++ CONSENSUS_MARKER)
                    consensus 3 1 ]
     = Some (repeat_text 500 "가" ++ CONSENSUS_MARKER)%string.
Proof. split; vm_compute; reflexivity. Qed.

(** X4: when [findCurrentConsensus] finds no open proposal, the stage is
    consensus, the round is at least 3 and every participant has an
    utterance in the consensus stage, [checkConsensus] answers true: an
    utterance the prompt builder counts as agreement is agreement for the
    detector too. *)
Theorem no_open_proposal_is_consensus (config : DebateConfig) :
  findCurrentConsensus (DebateConfig.messages config) = None ->
  DebateConfig.stage config = consensus ->
  3 <= DebateConfig.round config ->
  (forall m, In m (DebateConfig.selectedModels config) ->
     exists u, In u (DebateConfig.messages config)
               /\ Message.stage u = consensus /\ Message.model u = m) ->
  checkConsensus config = true.
Proof.
  intros Hnone Hstage Hround Hall.
  assert (Hmarked : forall u, In u (DebateConfig.messages config) ->
                              Message.stage u = consensus ->
                              carries_marker u = true).
  { intros u Hin Hs.
    unfold findCurrentConsensus in Hnone.
    destruct (last_elem _) as [x |] eqn:Hlast; [discriminate |].
    destruct (filter _ (DebateConfig.messages config)) as [| y l] eqn:Hf.
    - rewrite filter_nil_iff in Hf. specialize (Hf u Hin). simpl in Hf.
      rewrite Hs in Hf. simpl in Hf. apply negb_false_iff in Hf.
      now apply (includes_slice0 CONSENSUS_MARKER _ _ eq_refl) in Hf.
    - destruct (exists_last (l := y :: l)) as (front & z & Hz);
        [discriminate |].
      rewrite Hz, last_elem_snoc in Hlast. discriminate. }
  unfold checkConsensus. rewrite Hstage. simpl.
  destruct (Z.ltb_spec (DebateConfig.round config) MIN_CONSENSUS_ROUND)
    as [Hlt | _]; [unfold MIN_CONSENSUS_ROUND in Hlt; lia |].
  apply forallb_forall. intros last Hin.
  apply in_map_iff in Hin. destruct Hin as (m & <- & Hm).
  destruct (Hall m Hm) as (u & Hu & Hus & Hum).
  rewrite filter_filter.
  set (p := fun x : Message => _).
  assert (Hpu : In u (filter p (DebateConfig.messages config))).
  { apply filter_In. split; [assumption |]. unfold p.
    rewrite Hus, Hum. simpl. apply AIModel_eqb_refl. }
  destruct (filter p (DebateConfig.messages config)) as [| y l] eqn:Hf;
    [destruct Hpu |].
  destruct (exists_last (l := y :: l)) as (front & z & Hz); [discriminate |].
  rewrite Hz, last_elem_snoc.
  assert (Hz' : In z (filter p (DebateConfig.messages config))).
  { rewrite Hf, Hz. apply in_or_app. right. now left. }
  apply filter_In in Hz'. destruct Hz' as [Hzin Hpz]. unfold p in Hpz.
  apply andb_true_iff in Hpz. destruct Hpz as [Hzs _].
  apply DebateStage_eqb_eq in Hzs. exact (Hmarked z Hzin Hzs).
Qed.

(** ** Reading the stream *)

(** The text a line contributes: its [content] when that is a non-empty
    string. *)
Definition fragment_of (line : LineEvent) : string :=
  match line with
  | Parsed (Some (String c rest)) _ => String c rest
  | _ => ""
  end.

Fixpoint text_of (lines : list LineEvent) : string :=
  match lines with
  | [] => ""
  | line :: rest => (fragment_of line ++ text_of rest)%string
  end.

(** The error a line raises past the inner [catch], if any. *)
Definition fatal_in (line : LineEvent) : option string :=
  match line with
  | Ignored => None
  | Threw message => if rethrown message then Some message else None
  | Parsed _ (Some e) => if rethrown e then Some e else None
  | Parsed _ None => None
  end.

Lemma string_app_assoc (a b c : string) :
  ((a ++ b) ++ c = a ++ (b ++ c))%string.
Proof. induction a as [| x a IH]; simpl; [reflexivity | now rewrite IH]. Qed.

Lemma string_app_nil_r (a : string) : (a ++ "")%string = a.
Proof. induction a as [| x a IH]; simpl; [reflexivity | now rewrite IH]. Qed.

Lemma truthy_and_rethrown (e : string) :
  truthy (Some e) && rethrown e = rethrown e.
Proof. unfold rethrown. now destruct (truthy (Some e)). Qed.

(** One line of the loop, as far as the outcome goes. *)
Lemma consume_step (line : LineEvent) (rest : list LineEvent) (acc : string) :
  snd (consume (line :: rest) acc)
  = match fatal_in line with
    | Some message => Failed (ErrorObj message)
    | None => snd (consume rest (acc ++ fragment_of line)%string)
    end.
Proof.
  destruct line as [| message | [[| c0 c] |] [e |]];
    cbn [consume fatal_in fragment_of];
    rewrite ?string_app_nil_r, ?truthy_and_rethrown; cbn [truthy];
    try (destruct (rethrown _)); try reflexivity;
    now destruct (consume rest _).
Qed.

Lemma consume_outcome (lines : list LineEvent) (acc : string) :
  match snd (consume lines acc) with
  | Completed fullContent =>
      fullContent = (acc ++ text_of lines)%string
      /\ forall line, In line lines -> fatal_in line = None
  | Failed e =>
      exists before line after message,
        lines = before ++ line :: after
        /\ (forall l, In l before -> fatal_in l = None)
        /\ fatal_in line = Some message
        /\ e = ErrorObj message
  end.
Proof.
  revert acc. induction lines as [| line rest IH]; intro acc.
  - simpl. split; [now rewrite string_app_nil_r | intros ? []].
  - rewrite consume_step.
    destruct (fatal_in line) as [message |] eqn:Hline.
    + exists [], line, rest, message. repeat split; [intros ? [] | assumption].
    + specialize (IH (acc ++ fragment_of line)%string).
      destruct (snd (consume rest _)) as [full | e].
      * destruct IH as [-> Hrest]. split.
        -- simpl. now rewrite string_app_assoc.
        -- intros l [<- | Hl]; [assumption | now apply Hrest].
      * destruct IH as (before & l & after & message & -> & Hb & Hl & ->).
        exists (line :: before), l, after, message.
        repeat split; try assumption.
        intros l' [<- | Hl']; [assumption | now apply Hb].
Qed.

(** X5: what the read loop makes of a response body.  When the turn
    completes, the read ended normally, no line raised an error past the
    inner [catch], and the committed text is the concatenation, in order, of
    the non-empty [content] fragments of all lines.  When it fails inside
    the loop, the error is the first one, in line order, whose message is
    non-empty and does not mention JSON; the lines after it are not read. *)
Theorem stream_outcome (lines : list LineEvent) (ending : option Thrown) :
  match outcome_of (Stream lines ending) with
  | Completed fullContent =>
      ending = None
      /\ fullContent = text_of lines
      /\ forall line, In line lines -> fatal_in line = None
  | Failed e =>
      (ending = Some e /\ forall line, In line lines -> fatal_in line = None)
      \/ exists before line after message,
           lines = before ++ line :: after
           /\ (forall l, In l before -> fatal_in l = None)
           /\ fatal_in line = Some message
           /\ e = ErrorObj message
  end.
Proof.
  unfold outcome_of. simpl.
  pose proof (consume_outcome lines "") as H.
  destruct (consume lines "") as [effs out]; simpl in H |- *.
  destruct out as [full | e].
  - destruct H as [-> Hquiet]. destruct ending as [e |]; simpl.
    + left. now split.
    + now repeat split.
  - destruct ending; simpl; now right.
Qed.

(** ** [updateStreamingMessage], read back *)

(** The utterance [updateStreamingMessage] looks for. *)
Definition streaming_slot (s : DebateState) (model : AIModel) (u : Message)
  : bool :=
  AIModel_eqb (Message.model u) model
  && DebateStage_eqb (Message.stage u) (DebateState.stage s)
  && (Message.round u =? DebateState.round s).

Lemma find_assign_at (p : Message -> bool) (l : list Message)
                     (content : string) :
  (forall u, p (Store.with_content u content) = p u) ->
  findIndex p l <> -1 ->
  exists u,
    find p (assign_at l (Z.to_nat (findIndex p l))
                      (fun m => Store.with_content m content))
    = Some (Store.with_content u content)
    /\ find p l = Some u.
Proof.
  intros Hp. induction l as [| x l IH]; simpl; [congruence |].
  destruct (p x) eqn:Hx; simpl.
  - intros _. exists x. now rewrite Hp, Hx.
  - pose proof (findIndex_lower p l) as Hlow.
    destruct (Z.ltb_spec (findIndex p l) 0) as [Hneg | Hpos]; [congruence |].
    intros _.
    replace (Z.to_nat (findIndex p l + 1)) with (S (Z.to_nat (findIndex p l)))
      by lia.
    simpl. rewrite Hx. apply IH. lia.
Qed.

Lemma find_snoc_absent {A} (p : A -> bool) (l : list A) (x : A) :
  existsb p l = false -> p x = true -> find p (l ++ [x]) = Some x.
Proof.
  induction l as [| y l IH]; simpl; intros Hl Hx; [now rewrite Hx |].
  apply orb_false_iff in Hl. destruct Hl as [Hy Hl]. rewrite Hy. now apply IH.
Qed.

(** X6: after [updateStreamingMessage model content], the first utterance of
    [model] for the store's current stage and round carries [content]; it
    is the utterance that was first there before, with its id and timestamp,
    when there was one, and a new utterance stamped with the clock
    otherwise.  The stage, the round and the participants are untouched. *)
Theorem updateStreamingMessage_read_back (model : AIModel) (content : string)
    (now_id now_ts : Z) (s : DebateState) :
  let s' := Store.updateStreamingMessage model content now_id now_ts s in
  DebateState.stage s' = DebateState.stage s
  /\ DebateState.round s' = DebateState.round s
  /\ DebateState.selectedModels s' = DebateState.selectedModels s
  /\ exists u,
       find (streaming_slot s' model) (DebateState.messages s') = Some u
       /\ Message.content u = content
       /\ match find (streaming_slot s model) (DebateState.messages s) with
          | Some old => same_but_content old u
          | None =>
              Message.id u
              = (model_str model ++ "-" ++ string_of_number now_id)%string
              /\ Message.timestamp u = now_ts
          end.
Proof.
  intro s'. subst s'. unfold Store.updateStreamingMessage.
  fold (streaming_slot s model).
  change (fun m : Message => streaming_slot s model m)
    with (streaming_slot s model).
  destruct (Z.eqb_spec (findIndex (streaming_slot s model)
                                  (DebateState.messages s)) (-1))
    as [Habsent | Hfound]; simpl.
  - repeat split.
    apply findIndex_absent in Habsent.
    eexists. split.
    + apply find_snoc_absent; [exact Habsent |].
      unfold streaming_slot. simpl.
      now rewrite AIModel_eqb_refl, DebateStage_eqb_refl, Z.eqb_refl.
    + split; [reflexivity |].
      destruct (find _ (DebateState.messages s)) as [old |] eqn:Hold;
        [| now split].
      apply find_some in Hold. destruct Hold as [Hin Hp].
      assert (Hex : existsb (streaming_slot s model) (DebateState.messages s)
                    = true).
      { apply existsb_exists. now exists old. }
      congruence.
  - repeat split.
    destruct (find_assign_at (streaming_slot s model) (DebateState.messages s)
                content) as (u & Hnew & Hold); [reflexivity | assumption |].
    exists (Store.with_content u content). split; [exact Hnew |].
    split; [reflexivity |]. rewrite Hold. now repeat split.
Qed.

(** ** The shape of a session *)

(** The four stages in which agents speak. *)
Definition debate_stage (stage : DebateStage) : bool :=
  match stage with
  | position | cross_exam | common_ground | consensus => true
  | _ => false
  end.

(** The page order of the stages. *)
Definition stage_rank (stage : DebateStage) : Z :=
  match stage with
  | topic_input => 0
  | model_select => 1
  | position => 2
  | cross_exam => 3
  | common_ground => 4
  | consensus => 5
  | result => 6
  end.

Definition maxRounds_of (stage : DebateStage) : Z :=
  StageConfig.maxRounds (STAGE_CONFIG stage).

(** Rounds are numbered from 1, except in the position stage, which the
    debate enters at round 0. *)
Definition round_floor (stage : DebateStage) (round : Z) : Prop :=
  0 <= round /\ (stage = position \/ 1 <= round).

Definition unguarded (v : ViewState) : Prop :=
  DebateState.isPaused (ViewState.store v) = false
  /\ DebateState.isComplete (ViewState.store v) = false
  /\ ViewState.isRunning v = false.

Definition on_store (f : DebateState -> DebateState) (v : ViewState)
  : ViewState :=
  ViewState.mk (f (ViewState.store v)) (ViewState.streamingContent v)
               (ViewState.currentStreamingModel v) (ViewState.isRunning v)
               (ViewState.retryCount v) (ViewState.apiError v).

Section Coverage.

Variable getSystemPrompt : AIModel -> string.
Variable getStagePrompt :
  DebateStage -> string -> list Message -> option string -> Z -> string.

#[local] Abbreviation runTurn_ := (runTurn getSystemPrompt getStagePrompt).
#[local] Abbreviation tick_ := (tick getSystemPrompt getStagePrompt).
#[local] Abbreviation selects_ := (selects getSystemPrompt getStagePrompt).
#[local] Abbreviation reachable_ := (reachable getSystemPrompt getStagePrompt).
#[local] Abbreviation getNextTurn_ :=
  (getNextTurn getSystemPrompt getStagePrompt).

(** The state after a tick, by the action taken. *)
Inductive TickStep (v : ViewState) (resp : Response) (now_id now_ts : Z)
  : ViewState -> Prop :=
| step_guarded :
    DebateState.isPaused (ViewState.store v)
    || DebateState.isComplete (ViewState.store v)
    || ViewState.isRunning v = true ->
    TickStep v resp now_id now_ts v
| step_nobody :
    unguarded v ->
    checkConsensus (config_of (ViewState.store v)) = false ->
    StageCheck.advance (shouldAdvanceStage (config_of (ViewState.store v)))
    = false ->
    shouldAdvanceRound (config_of (ViewState.store v)) = false ->
    getNextTurn_ (config_of (ViewState.store v)) = None ->
    TickStep v resp now_id now_ts v
| step_consensus :
    unguarded v ->
    checkConsensus (config_of (ViewState.store v)) = true ->
    TickStep v resp now_id now_ts (on_store (Store.setComplete true) v)
| step_exhausted :
    unguarded v ->
    checkConsensus (config_of (ViewState.store v)) = false ->
    StageCheck.advance (shouldAdvanceStage (config_of (ViewState.store v)))
    = true ->
    getNextStage (DebateState.stage (ViewState.store v)) = result ->
    TickStep v resp now_id now_ts (on_store (Store.setComplete false) v)
| step_stage :
    unguarded v ->
    checkConsensus (config_of (ViewState.store v)) = false ->
    StageCheck.advance (shouldAdvanceStage (config_of (ViewState.store v)))
    = true ->
    getNextStage (DebateState.stage (ViewState.store v)) <> result ->
    TickStep v resp now_id now_ts
      (on_store
         (fun s => Store.setRound 1
                     (Store.setStage (getNextStage (DebateState.stage s)) s))
         v)
| step_round :
    unguarded v ->
    checkConsensus (config_of (ViewState.store v)) = false ->
    StageCheck.advance (shouldAdvanceStage (config_of (ViewState.store v)))
    = false ->
    shouldAdvanceRound (config_of (ViewState.store v)) = true ->
    TickStep v resp now_id now_ts
      (on_store (fun s => Store.setRound (DebateState.round s + 1) s) v)
| step_turn : forall turn,
    selects_ v turn ->
    TickStep v resp now_id now_ts
      (ViewState.mk
         (store_after_turn (ViewState.store v) (TurnResult.model turn)
                           (retries_of v (TurnResult.model turn))
                           now_id now_ts (outcome_of resp))
         "" None false
         (retryCount_after_turn (ViewState.retryCount v)
                                (TurnResult.model turn) (outcome_of resp))
         (apiError_after_turn (ViewState.apiError v) (ViewState.retryCount v)
                              (TurnResult.model turn) (outcome_of resp))).

Lemma tick_step (v : ViewState) (resp : Response) (now_id now_ts : Z) :
  TickStep v resp now_id now_ts (tick_ now_id now_ts resp v).
Proof.
  destruct (DebateState.isPaused (ViewState.store v)
            || DebateState.isComplete (ViewState.store v)
            || ViewState.isRunning v) eqn:Hguard.
  { unfold tick, runTurn. rewrite Hguard. now apply step_guarded. }
  assert (Hun : unguarded v).
  { apply orb_false_iff in Hguard. destruct Hguard as [Hguard Hrun].
    apply orb_false_iff in Hguard. now destruct Hguard. }
  destruct (checkConsensus (config_of (ViewState.store v))) eqn:Hcc.
  { unfold tick, runTurn. rewrite Hguard, Hcc. destruct v.
    now apply step_consensus. }
  destruct (StageCheck.advance
              (shouldAdvanceStage (config_of (ViewState.store v)))) eqn:Hadv.
  - pose proof (shouldAdvanceStage_next _ Hadv) as Hnext. simpl in Hnext.
    destruct (DebateStage_eqb (getNextStage (DebateState.stage
                                               (ViewState.store v))) result)
      eqn:Hres.
    + unfold tick, runTurn. rewrite Hguard, Hcc, Hadv, Hnext, Hres.
      destruct v. apply step_exhausted; try assumption.
      now apply DebateStage_eqb_eq.
    + unfold tick, runTurn. rewrite Hguard, Hcc, Hadv, Hnext, Hres.
      destruct v. apply step_stage; try assumption.
      intro Heq. apply DebateStage_eqb_eq in Heq. simpl in Heq, Hres.
      congruence.
  - destruct (shouldAdvanceRound (config_of (ViewState.store v))) eqn:Hsar.
    + unfold tick, runTurn. rewrite Hguard, Hcc, Hadv, Hsar.
      destruct v. now apply step_round.
    + destruct (getNextTurn_ (config_of (ViewState.store v))) as [turn |]
        eqn:Hturn.
      * assert (Hsel : selects_ v turn).
        { destruct Hun as (Hp & Hc & Hr). now repeat split. }
        rewrite (tick_selected _ _ _ _ _ _ _ Hsel). now apply step_turn.
      * unfold tick, runTurn. rewrite Hguard, Hcc, Hadv, Hsar, Hturn.
        now apply step_nobody.
Qed.


Lemma shouldAdvanceStage_advance (config : DebateConfig) :
  StageCheck.advance (shouldAdvanceStage config)
  = (maxRounds_of (DebateConfig.stage config) <=? DebateConfig.round config).
Proof.
  unfold shouldAdvanceStage, maxRounds_of. now destruct (_ <=? _).
Qed.

(** What holds of a session between two ticks. *)
Definition settled (v : ViewState) : Prop :=
  let s := ViewState.store v in
  ViewState.isRunning v = false
  /\ (forall m, 0 <= retries_of v m <= RETRY_CEILING)
  /\ (DebateState.isComplete s = true -> DebateState.stage s = result)
  /\ (DebateState.isComplete s = false ->
      debate_stage (DebateState.stage s) = true
      /\ round_floor (DebateState.stage s) (DebateState.round s)
      /\ DebateState.round s <= maxRounds_of (DebateState.stage s))
  /\ (forall u, In u (DebateState.messages s) ->
        debate_stage (Message.stage u) = true
        /\ round_floor (Message.stage u) (Message.round u)
        /\ Message.round u < maxRounds_of (Message.stage u)).

Lemma retryCount_after_turn_bounds (rc : PerModel.t Z) (model : AIModel)
                                   (outcome : Outcome) :
  (forall m, 0 <= PerModel.get rc m <= RETRY_CEILING) ->
  forall m,
    0 <= PerModel.get (retryCount_after_turn rc model outcome) m
    <= RETRY_CEILING.
Proof.
  intros Hrc m. unfold retryCount_after_turn.
  destruct outcome as [fullContent | e].
  - destruct (AIModel_eqb m model) eqn:Hm.
    + apply AIModel_eqb_eq in Hm. subst m. rewrite PerModel_get_set_same.
      unfold RETRY_CEILING. lia.
    + apply AIModel_eqb_neq in Hm. now rewrite PerModel_get_set_other.
  - destruct (isCredentialError _); [apply Hrc |].
    destruct (Z.ltb_spec (PerModel.get rc model) RETRY_CEILING) as [Hlt | _];
      [| apply Hrc].
    destruct (AIModel_eqb m model) eqn:Hm.
    + apply AIModel_eqb_eq in Hm. subst m. rewrite PerModel_get_set_same.
      specialize (Hrc model). lia.
    + apply AIModel_eqb_neq in Hm. now rewrite PerModel_get_set_other.
Qed.

Lemma tick_settled (v : ViewState) (resp : Response) (now_id now_ts : Z) :
  settled v -> settled (tick_ now_id now_ts resp v).
Proof.
  intro Hsettled. pose proof Hsettled as (Hrun & Hretry & Hdone & Hopen & Hlog).
  destruct (tick_step v resp now_id now_ts)
    as [ Hg | Hun _ _ _ _ | Hun Hcc | Hun Hcc Hadv Hnext | Hun Hcc Hadv Hnext
       | Hun Hcc Hadv Hsar | turn Hsel ].
  - exact Hsettled.
  - exact Hsettled.
  - unfold settled. simpl. repeat split; try assumption; try discriminate;
      apply Hretry || apply Hlog; assumption.
  - unfold settled. simpl. repeat split; try assumption; try discriminate;
      apply Hretry || apply Hlog; assumption.
  - destruct Hun as (_ & Hc & _). destruct (Hopen Hc) as (Hstage & Hfloor & Hmax).
    unfold settled. simpl.
    split; [assumption |]. split; [assumption |].
    split; [congruence |]. split; [| assumption].
    intros _. unfold round_floor, maxRounds_of.
    destruct (DebateState.stage (ViewState.store v));
      try discriminate Hstage; simpl in *; try (now elim Hnext);
      repeat split; lia.
  - destruct Hun as (_ & Hc & _). destruct (Hopen Hc) as (Hstage & Hfloor & Hmax).
    rewrite shouldAdvanceStage_advance in Hadv. simpl in Hadv.
    apply Z.leb_gt in Hadv.
    unfold settled. simpl.
    split; [assumption |]. split; [assumption |].
    split; [congruence |]. split; [| assumption].
    intros _. split; [assumption |].
    destruct Hfloor as [H0 Hor]. unfold round_floor. repeat split; lia.
  - pose proof Hsel as (_ & Hc & _ & _ & Hadv & _ & _).
    destruct (Hopen Hc) as (Hstage & Hfloor & Hmax).
    rewrite shouldAdvanceStage_advance in Hadv. simpl in Hadv.
    apply Z.leb_gt in Hadv.
    destruct (store_after_turn_frame (ViewState.store v)
                (TurnResult.model turn) (retries_of v (TurnResult.model turn))
                now_id now_ts (outcome_of resp))
      as (_ & _ & Hst & Hrd & _ & Hcm & Hmsg).
    unfold settled.
    cbn [ViewState.store ViewState.isRunning ViewState.retryCount].
    rewrite Hst, Hrd, Hcm, Hmsg.
    split; [reflexivity |].
    split; [now apply retryCount_after_turn_bounds |].
    split; [assumption |]. split; [assumption |].
    intros u Hu. apply in_app_or in Hu. destruct Hu as [Hu | Hu];
      [now apply Hlog |].
    destruct (outcome_of resp) as [fullContent | e]; [| destruct Hu].
    destruct Hu as [<- | []]. simpl. split; [assumption | now split].
Qed.

Lemma reachable_settled (v : ViewState) : reachable_ v -> settled v.
Proof.
  induction 1 as [v Hstart | v now_id now_ts resp _ IH | v _ IH].
  - destruct Hstart as (Hst & Hrd & Hlog & _ & _ & Hc & Hrun & Hrc & _).
    unfold settled, retries_of. rewrite Hst, Hrd, Hlog, Hc, Hrc.
    split; [assumption |].
    split; [intros []; unfold RETRY_CEILING; simpl; lia |].
    split; [discriminate |].
    split; [| intros u []].
    intros _. unfold round_floor, maxRounds_of. simpl. repeat split; try lia.
    now left.
  - now apply tick_settled.
  - destruct v as [s sc csm ir rc ae]. exact IH.
Qed.


Lemma getNextStage_table (stage : DebateStage) :
  getNextStage stage
  = match stage with
    | position => cross_exam
    | cross_exam => common_ground
    | common_ground => consensus
    | consensus => result
    | result => result
    | _ => position
    end.
Proof. now destruct stage. Qed.

Lemma getNextStage_rank (stage : DebateStage) :
  stage_rank stage <= stage_rank (getNextStage stage).
Proof. destruct stage; vm_compute; discriminate. Qed.

(** X7: no tick moves a session to an earlier stage: after a tick the stage
    is the same, the next one in the order position, cross-exam,
    common-ground, consensus, result, or [result] itself. *)
Theorem stage_never_goes_back (v : ViewState) (resp : Response)
    (now_id now_ts : Z) :
  let stage := DebateState.stage (ViewState.store v) in
  let stage' := DebateState.stage
                  (ViewState.store (tick_ now_id now_ts resp v)) in
  stage_rank stage <= stage_rank stage'
  /\ (stage' = stage \/ stage' = getNextStage stage \/ stage' = result).
Proof.
  intros stage stage'. subst stage stage'.
  destruct (tick_step v resp now_id now_ts)
    as [ | | | | | | turn Hsel ]; simpl.
  1, 2, 6: split; [lia | now left].
  1, 2: split; [destruct (DebateState.stage _); simpl; lia | now right; right].
  - split; [apply getNextStage_rank | now right; left].
  - destruct (store_after_turn_frame (ViewState.store v)
                (TurnResult.model turn) (retries_of v (TurnResult.model turn))
                now_id now_ts (outcome_of resp))
      as (_ & _ & Hst & _).
    rewrite Hst. split; [lia | now left].
Qed.

(** X8: between ticks of a session no turn is in flight; the session is
    complete exactly when its stage is [result]; and while it is not
    complete the stage is one of the four debate stages and the round lies
    between the stage's first round (0 for position, 1 otherwise) and the
    stage's configured maximum.  So the timer that drives the ticks is armed
    exactly when the session is neither paused nor complete. *)
Theorem session_shape (v : ViewState) :
  reachable_ v ->
  let s := ViewState.store v in
  ViewState.isRunning v = false
  /\ (DebateState.isComplete s = true <-> DebateState.stage s = result)
  /\ (DebateState.isComplete s = false ->
      debate_stage (DebateState.stage s) = true
      /\ round_floor (DebateState.stage s) (DebateState.round s)
      /\ DebateState.round s <= maxRounds_of (DebateState.stage s))
  /\ timerArmed v
     = negb (DebateState.isPaused s) && negb (DebateState.isComplete s).
Proof.
  intros Hreach s.
  destruct (reachable_settled v Hreach) as (Hrun & _ & Hdone & Hopen & _).
  fold s in Hdone, Hopen.
  assert (Hiff : DebateState.isComplete s = true <-> DebateState.stage s = result).
  { split; [assumption |]. intro Hres.
    destruct (DebateState.isComplete s); [reflexivity |].
    destruct (Hopen eq_refl) as (Hstage & _). rewrite Hres in Hstage.
    discriminate. }
  repeat split; try (apply Hopen; assumption); try apply Hiff; try assumption.
  unfold timerArmed. fold s. rewrite Hrun.
  destruct (DebateState.isComplete s) eqn:Hc.
  - now rewrite !andb_false_r.
  - destruct (Hopen eq_refl) as (Hstage & _).
    destruct (DebateState.stage s); try discriminate Hstage;
      now rewrite !andb_true_r.
Qed.

(** X9: every utterance in the log of a session was made in a debate stage,
    in a round from the stage's first round up to, but not including, the
    stage's configured maximum: round 0 for position, rounds 1 to 3 for
    cross-exam, round 1 for common-ground, rounds 1 to 14 for consensus. *)
Theorem utterances_within_stage_rounds (v : ViewState) (u : Message) :
  reachable_ v ->
  In u (DebateState.messages (ViewState.store v)) ->
  debate_stage (Message.stage u) = true
  /\ Message.round u < maxRounds_of (Message.stage u)
  /\ match Message.stage u with
     | position => Message.round u = 0
     | cross_exam => 1 <= Message.round u <= 3
     | common_ground => Message.round u = 1
     | consensus => 1 <= Message.round u <= 14
     | _ => False
     end.
Proof.
  intros Hreach Hu.
  destruct (reachable_settled v Hreach) as (_ & _ & _ & _ & Hlog).
  destruct (Hlog u Hu) as (Hstage & [H0 Hfloor] & Hmax).
  split; [assumption |]. split; [assumption |].
  unfold maxRounds_of in Hmax.
  destruct (Message.stage u); try discriminate Hstage; simpl in Hmax;
    try (destruct Hfloor as [Hfloor | Hfloor]; [discriminate Hfloor |]); lia.
Qed.

(** X10: in every state of a session each agent's retry counter lies between
    0 and 3. *)
Theorem retry_counter_bounded (v : ViewState) (m : AIModel) :
  reachable_ v -> 0 <= retries_of v m <= 3.
Proof.
  intro Hreach.
  destruct (reachable_settled v Hreach) as (_ & Hretry & _).
  apply Hretry.
Qed.


(** ** Scheduling *)

Lemma find_none_iff {A} (p : A -> bool) (l : list A) :
  find p l = None <-> forall x, In x l -> p x = false.
Proof.
  split; [apply find_none |].
  induction l as [| y l IH]; intro H; simpl; [reflexivity |].
  rewrite (H y (or_introl eq_refl)). apply IH. intros x Hx. apply H. now right.
Qed.

(** With nobody to select in a debate stage, everyone has spoken. *)
Lemma no_turn_round_over (config : DebateConfig) :
  getNextTurn_ config = None ->
  debate_stage (DebateConfig.stage config) = true ->
  forall m, In m (DebateConfig.selectedModels config) ->
    has_spoken (DebateConfig.messages config) (DebateConfig.stage config)
               (DebateConfig.round config) m = true.
Proof.
  unfold getNextTurn. cbv zeta. intros Hnone Hstage m Hm.
  assert (Hguard : DebateStage_eqb (DebateConfig.stage config) result
                   || DebateStage_eqb (DebateConfig.stage config) topic_input
                   || DebateStage_eqb (DebateConfig.stage config) model_select
                   = false)
    by now destruct (DebateConfig.stage config).
  rewrite Hguard in Hnone.
  destruct (find _ (DebateConfig.selectedModels config)) as [x |] eqn:Hfind;
    [discriminate |].
  rewrite find_none_iff in Hfind. specialize (Hfind m Hm).
  now apply negb_false_iff in Hfind.
Qed.

(** X11: [getNextTurn] returns nothing exactly when the stage is not a
    debate stage or every participant already has an utterance for the
    current stage and round; in particular when nobody participates. *)
Theorem getNextTurn_none (config : DebateConfig) :
  getNextTurn_ config = None
  <-> debate_stage (DebateConfig.stage config) = false
      \/ forall m, In m (DebateConfig.selectedModels config) ->
            has_spoken (DebateConfig.messages config)
                       (DebateConfig.stage config)
                       (DebateConfig.round config) m = true.
Proof.
  unfold getNextTurn. cbv zeta.
  assert (Hguard : DebateStage_eqb (DebateConfig.stage config) result
                   || DebateStage_eqb (DebateConfig.stage config) topic_input
                   || DebateStage_eqb (DebateConfig.stage config) model_select
                   = negb (debate_stage (DebateConfig.stage config)))
    by now destruct (DebateConfig.stage config).
  rewrite Hguard.
  destruct (debate_stage (DebateConfig.stage config)); simpl.
  2:{ split; [now left | reflexivity]. }
  destruct (find _ (DebateConfig.selectedModels config)) as [m |] eqn:Hfind.
  - split; [discriminate |]. intros [Hno | Hall]; [discriminate |].
    apply find_some in Hfind. destruct Hfind as [Hin Hsilent].
    specialize (Hall m Hin). unfold has_spoken in Hall.
    rewrite Hall in Hsilent. discriminate.
  - split; [| reflexivity]. intros _. right. intros m Hm.
    rewrite find_none_iff in Hfind. specialize (Hfind m Hm).
    now apply negb_false_iff in Hfind.
Qed.

(** X12: a session never stalls: whenever the timer is armed, the tick it
    fires completes the session, advances the stage, advances the round or
    sends a request to an agent, whatever the service will answer. *)
Theorem armed_tick_acts (v : ViewState) (resp : Response) :
  reachable_ v ->
  timerArmed v = true ->
  completes (runTurn_ v resp)
  \/ advances_stage (runTurn_ v resp)
  \/ advances_round (runTurn_ v resp)
  \/ produces_turn (runTurn_ v resp).
Proof.
  intros Hreach Harmed.
  pose proof (reachable_settled v Hreach) as (_ & _ & _ & Hopen & _).
  pose proof (reachable_well_formed _ _ v Hreach) as Hwf.
  unfold timerArmed in Harmed.
  apply andb_true_iff in Harmed. destruct Harmed as [Harmed Hrun].
  apply andb_true_iff in Harmed. destruct Harmed as [Harmed _].
  apply andb_true_iff in Harmed. destruct Harmed as [Hp Hc].
  apply negb_true_iff in Hp, Hc, Hrun.
  destruct (Hopen Hc) as (Hstage & _).
  destruct (runTurn_kind getSystemPrompt getStagePrompt v resp)
    as [Hguard | | | | | Hcc Hadv Hsar Hnone | turn Hsel].
  - rewrite Hp, Hc, Hrun in Hguard. discriminate.
  - left. eexists. now left.
  - left. eexists. now left.
  - right. left. eexists. now left.
  - right. right. left. split.
    + eexists. now left.
    + intros [st [Hin | []]]. discriminate Hin.
  - exfalso. pose proof (no_turn_round_over _ Hnone Hstage) as Hall.
    apply (shouldAdvanceRound_all_spoke _ Hwf) in Hall. congruence.
  - right. right. right.
    assert (Hlen : List.length (filter is_fetch (executeTurn v turn resp))
                   = 1%nat) by apply executeTurn_one_fetch.
    destruct (filter is_fetch (executeTurn v turn resp)) as [| e l] eqn:Hf;
      [discriminate |].
    assert (Hin : In e (filter is_fetch (executeTurn v turn resp))).
    { rewrite Hf. now left. }
    apply filter_In in Hin. destruct Hin as [Hin Hfetch].
    destruct e as [ | | | | | | request]; try discriminate Hfetch.
    exists request. exact Hin.
Qed.


(** ** The order of speech *)

Lemma find_app_skip {A} (p : A -> bool) (a b : list A) :
  (forall x, In x a -> p x = false) -> find p (a ++ b) = find p b.
Proof.
  induction a as [| x a IH]; intro H; simpl; [reflexivity |].
  rewrite (H x (or_introl eq_refl)). apply IH. intros y Hy. apply H. now right.
Qed.

Lemma getNextTurn_find (config : DebateConfig) (turn : TurnResult) :
  getNextTurn_ config = Some turn ->
  find (fun m => negb (has_spoken (DebateConfig.messages config)
                                  (DebateConfig.stage config)
                                  (DebateConfig.round config) m))
       (DebateConfig.selectedModels config)
  = Some (TurnResult.model turn).
Proof.
  unfold getNextTurn. destruct (_ || _); [discriminate |].
  unfold has_spoken.
  destruct (find _ _) as [m |]; [| discriminate]. now intros [= <-].
Qed.

(** When those who spoke are the head of the participant list, the agent
    selected next is the one right after them. *)
Lemma next_speaker_follows (config : DebateConfig) (turn : TurnResult)
                           (rest : list AIModel) :
  NoDup (DebateConfig.selectedModels config) ->
  DebateConfig.selectedModels config
  = speakers (DebateConfig.messages config) (DebateConfig.stage config)
             (DebateConfig.round config) ++ rest ->
  getNextTurn_ config = Some turn ->
  exists rest', rest = TurnResult.model turn :: rest'.
Proof.
  intros Hnd Hsplit Hturn. apply getNextTurn_find in Hturn.
  rewrite Hsplit in Hturn, Hnd. rewrite find_app_skip in Hturn.
  2:{ intros x Hx. apply negb_false_iff. now apply has_spoken_In. }
  destruct rest as [| y rest']; [discriminate |]. simpl in Hturn.
  assert (Hy : has_spoken (DebateConfig.messages config)
                          (DebateConfig.stage config)
                          (DebateConfig.round config) y = false).
  { apply has_not_spoken_In. intro Hin.
    apply NoDup_remove_2 in Hnd. apply Hnd. apply in_or_app. now left. }
  rewrite Hy in Hturn. simpl in Hturn. injection Hturn as <-. now exists rest'.
Qed.

(** In a round the agents speak in the order of the participant list. *)
Definition in_order (s : DebateState) : Prop :=
  forall stage round,
    exists rest,
      DebateState.selectedModels s
      = speakers (DebateState.messages s) stage round ++ rest.

Lemma tick_in_order (v : ViewState) (resp : Response) (now_id now_ts : Z) :
  well_formed_log (ViewState.store v) ->
  in_order (ViewState.store v) ->
  in_order (ViewState.store (tick_ now_id now_ts resp v)).
Proof.
  intros Hwf Hord.
  destruct (tick_cases_store getSystemPrompt getStagePrompt v resp
                             now_id now_ts)
    as [[Hm Hsel] | (turn & Hturn & Hs)].
  - unfold in_order. now rewrite Hm, Hsel.
  - rewrite Hs.
    destruct (store_after_turn_frame (ViewState.store v)
                (TurnResult.model turn) (retries_of v (TurnResult.model turn))
                now_id now_ts (outcome_of resp))
      as (Hsel & _ & _ & _ & _ & _ & Hm).
    unfold in_order. rewrite Hsel, Hm.
    destruct (outcome_of resp) as [fullContent | e];
      [| now rewrite app_nil_r].
    intros stage round. rewrite speakers_snoc. simpl.
    destruct (Hord stage round) as [rest Hrest].
    destruct (DebateStage_eqb (DebateState.stage (ViewState.store v)) stage)
      eqn:Hst; simpl; [| exists rest; now rewrite app_nil_r].
    destruct (Z.eqb_spec (DebateState.round (ViewState.store v)) round)
      as [Hrd | Hrd]; [| exists rest; now rewrite app_nil_r].
    apply DebateStage_eqb_eq in Hst. subst stage round.
    destruct Hturn as (_ & _ & _ & _ & _ & _ & Hnext).
    destruct (next_speaker_follows (config_of (ViewState.store v)) turn rest
                (proj1 Hwf) Hrest Hnext) as [rest' ->].
    exists rest'. now rewrite <- app_assoc.
Qed.

Lemma reachable_in_order (v : ViewState) :
  reachable_ v -> in_order (ViewState.store v).
Proof.
  induction 1 as [v Hstart | v now_id now_ts resp Hreach IH | v _ IH].
  - destruct Hstart as (_ & _ & Hlog & _).
    intros stage round. unfold speakers, stageMessages. rewrite Hlog.
    now eexists.
  - apply tick_in_order; [| assumption].
    now apply (reachable_well_formed getSystemPrompt getStagePrompt).
  - now destruct v.
Qed.

(** X13: in every state of a session and for every stage and round, the
    agents that have an utterance for that stage and round are, in the order
    in which they spoke, an initial segment of the participant list: within
    a round the agents speak once each, in the fixed participant order. *)
Theorem speech_follows_participant_order (v : ViewState)
    (stage : DebateStage) (round : Z) :
  reachable_ v ->
  let s := ViewState.store v in
  speakers (DebateState.messages s) stage round
  = firstn (List.length (speakers (DebateState.messages s) stage round))
           (DebateState.selectedModels s).
Proof.
  intros Hreach s.
  destruct (reachable_in_order v Hreach stage round) as [rest Hrest].
  fold s in Hrest. rewrite Hrest.
  rewrite firstn_app, Nat.sub_diag, firstn_all. simpl.
  now rewrite app_nil_r.
Qed.

Lemma said_le_participants (s : DebateState) (stage : DebateStage)
                           (round : Z) :
  well_formed_log s ->
  (List.length (stageMessages (DebateState.messages s) stage round)
   <= List.length (DebateState.selectedModels s))%nat.
Proof.
  intros (Hsel & Hone & Hby).
  rewrite <- (length_map Message.model).
  apply NoDup_incl_length; [apply Hone |].
  intros m Hm. apply in_map_iff in Hm. destruct Hm as (u & <- & Hu).
  apply filter_In in Hu. now apply Hby.
Qed.

(** X14: the progress shown in the header, in every state of a session: the
    count of turns taken never exceeds the number of participants, it
    reaches that number exactly when the round check holds, and while a
    turn is still to be produced the agent selected next is the participant
    at that position of the list. *)
Theorem stage_progress_is_sound (v : ViewState) :
  reachable_ v ->
  let s := ViewState.store v in
  let progress := getStageProgress (config_of s) in
  0 <= StageProgress.current progress <= StageProgress.max progress
  /\ (shouldAdvanceRound (config_of s) = true
      <-> StageProgress.current progress = StageProgress.max progress)
  /\ (forall turn,
        getNextTurn_ (config_of s) = Some turn ->
        nth_error (DebateState.selectedModels s)
                  (Z.to_nat (StageProgress.current progress))
        = Some (TurnResult.model turn)).
Proof.
  intros Hreach s progress. subst progress. unfold getStageProgress. simpl.
  pose proof (reachable_well_formed getSystemPrompt getStagePrompt v Hreach)
    as Hwf. fold s in Hwf.
  pose proof (said_le_participants s (DebateState.stage s)
                (DebateState.round s) Hwf) as Hle.
  split; [lia |]. split.
  - unfold shouldAdvanceRound. simpl. rewrite Nat.leb_le. lia.
  - intros turn Hturn. rewrite Nat2Z.id.
    destruct (reachable_in_order v Hreach (DebateState.stage s)
                (DebateState.round s)) as [rest Hrest]. fold s in Hrest.
    destruct (next_speaker_follows (config_of s) turn rest (proj1 Hwf) Hrest
                Hturn) as [rest' ->].
    rewrite Hrest at 1.
    replace (List.length (stageMessages (DebateState.messages s)
                            (DebateState.stage s) (DebateState.round s)))
      with (List.length (speakers (DebateState.messages s)
                           (DebateState.stage s) (DebateState.round s)))
      by (unfold speakers; apply length_map).
    rewrite nth_error_app2, Nat.sub_diag by lia. reflexivity.
Qed.


(** ** Token accounting *)

(** The usage a turn is charged: a quarter of the text's length, rounded up,
    when the turn completed. *)
Definition usage_gain (outcome : Outcome) : Z :=
  match outcome with
  | Completed fullContent => ceil_quarter (js_length fullContent)
  | Failed _ => 0
  end.

Lemma ceil_quarter_spec (n : nat) :
  4 * ceil_quarter n - 3 <= Z.of_nat n <= 4 * ceil_quarter n.
Proof. unfold ceil_quarter. Z.div_mod_to_equations. lia. Qed.

Lemma usage_after_turn (s : DebateState) (m m' : AIModel)
    (currentRetry now_id now_ts : Z) (outcome : Outcome) :
  usage_of (store_after_turn s m currentRetry now_id now_ts outcome) m'
  = usage_of s m' + (if AIModel_eqb m' m then usage_gain outcome else 0).
Proof.
  unfold usage_of, store_after_turn, usage_gain.
  destruct (AIModel_eqb m' m) eqn:Hm.
  - apply AIModel_eqb_eq in Hm. subst m'.
    destruct outcome as [fullContent | e];
      [| destruct (isCredentialError _); [| destruct (_ <? _)]]; simpl;
      rewrite !PerModel_get_set_same; simpl; lia.
  - apply AIModel_eqb_neq in Hm.
    destruct outcome as [fullContent | e];
      [| destruct (isCredentialError _); [| destruct (_ <? _)]]; simpl;
      rewrite ?PerModel_get_set_other by assumption; lia.
Qed.

Lemma sum_shift (f g : AIModel -> Z) (m : AIModel) (d : Z) (l : list AIModel) :
  (forall x, g x = f x + (if AIModel_eqb x m then d else 0)) ->
  NoDup l ->
  forall a,
    fold_left (fun sum x => sum + g x) l a
    = fold_left (fun sum x => sum + f x) l a
      + (if existsb (AIModel_eqb m) l then d else 0).
Proof.
  intros Hg. induction l as [| x l IH]; intros Hnd a; simpl; [lia |].
  apply NoDup_cons_iff in Hnd. destruct Hnd as [Hx Hl].
  rewrite (IH Hl), Hg. rewrite (AIModel_eqb_sym m x).
  destruct (AIModel_eqb x m) eqn:Hxm; simpl.
  - apply AIModel_eqb_eq in Hxm. subst x.
    assert (Hout : existsb (AIModel_eqb m) l = false).
    { destruct (existsb (AIModel_eqb m) l) eqn:He; [| reflexivity].
      apply existsb_AIModel_In in He. contradiction. }
    rewrite Hout.
    assert (Hacc : forall b c,
              fold_left (fun sum y => sum + f y) l (b + c)
              = fold_left (fun sum y => sum + f y) l b + c).
    { clear. induction l as [| y l IHl]; intros b c; simpl; [reflexivity |].
      replace (b + c + f y) with (b + f y + c) by lia. apply IHl. }
    replace (a + (f m + d)) with (a + f m + d) by lia.
    rewrite Hacc. lia.
  - now rewrite Z.add_0_r.
Qed.

(** X15: what a turn costs on the token counter of the footer.  In every
    state of a session, a tick that produces a turn raises the total over
    the participants by exactly a quarter of the committed text's length,
    rounded up, when the turn completes, and leaves it as it was when the
    turn fails.  The length is the JS [length] of the text, its number of
    UTF-16 code units. *)
Theorem token_counter_charges_the_turn (v : ViewState) (turn : TurnResult)
    (resp : Response) (now_id now_ts : Z) :
  reachable_ v ->
  selects_ v turn ->
  let s := ViewState.store v in
  let s' := ViewState.store (tick_ now_id now_ts resp v) in
  totalTokens s' = totalTokens s + usage_gain (outcome_of resp)
  /\ 0 <= usage_gain (outcome_of resp)
  /\ match outcome_of resp with
     | Completed fullContent =>
         4 * usage_gain (outcome_of resp) - 3
         <= Z.of_nat (js_length fullContent)
         <= 4 * usage_gain (outcome_of resp)
     | Failed _ => usage_gain (outcome_of resp) = 0
     end.
Proof.
  intros Hreach Hsel s s'. subst s'.
  rewrite (tick_selected _ _ _ _ _ _ _ Hsel). cbn [ViewState.store]. fold s.
  pose proof (reachable_well_formed getSystemPrompt getStagePrompt v Hreach)
    as (Hnd & _ & _). fold s in Hnd.
  destruct Hsel as (_ & _ & _ & _ & _ & _ & Hnext).
  destruct (getNextTurn_first_silent _ _ _ _ Hnext)
    as (earlier & later & Hsplit & _ & _).
  simpl in Hsplit. fold s in Hsplit.
  assert (Hin : existsb (AIModel_eqb (TurnResult.model turn))
                        (DebateState.selectedModels s) = true).
  { apply existsb_AIModel_In. rewrite Hsplit. apply in_or_app. right. now left. }
  split.
  - unfold totalTokens.
    destruct (store_after_turn_frame s (TurnResult.model turn)
                (retries_of v (TurnResult.model turn)) now_id now_ts
                (outcome_of resp)) as (Hsm & _).
    rewrite Hsm.
    rewrite (sum_shift (usage_of s) _ (TurnResult.model turn)
                       (usage_gain (outcome_of resp)) _
                       (fun x => usage_after_turn s (TurnResult.model turn) x
                                   _ now_id now_ts (outcome_of resp)) Hnd).
    now rewrite Hin.
  - destruct (outcome_of resp) as [fullContent | e]; cbn [usage_gain].
    + pose proof (ceil_quarter_spec (js_length fullContent)). lia.
    + lia.
Qed.

(** ** What is sent *)

Lemma getNextTurn_fields (config : DebateConfig) (turn : TurnResult) :
  getNextTurn_ config = Some turn ->
  turn = TurnResult.mk
           (TurnResult.model turn)
           (getStagePrompt (DebateConfig.stage config)
                           (DebateConfig.topic config)
                           (slice_last 5 (DebateConfig.messages config))
                           (findCurrentConsensus (DebateConfig.messages config))
                           (DebateConfig.round config))
           (getSystemPrompt (TurnResult.model turn))
           (buildContextMessages (DebateConfig.messages config)
                                 (TurnResult.model turn)).
Proof.
  unfold getNextTurn. destruct (_ || _); [discriminate |].
  destruct (find _ _) as [m |]; [| discriminate]. now intros [= <-].
Qed.

(** X16: the one request of a turn.  A tick that produces a turn posts
    exactly one request; it is for the selected agent, with that agent's
    key from the store and its system prompt, and its messages are the
    context fragments of the last five utterances followed by the stage
    prompt in the user role, at most six messages in all. *)
Theorem turn_request (v : ViewState) (turn : TurnResult) (resp : Response) :
  selects_ v turn ->
  let s := ViewState.store v in
  let m := TurnResult.model turn in
  exists request,
    filter is_fetch (runTurn_ v resp) = [Fetch request]
    /\ ChatRequest.model request = m
    /\ ChatRequest.apiKey request
       = AIState.apiKey (PerModel.get (DebateState.aiStates s) m)
    /\ ChatRequest.systemPrompt request = getSystemPrompt m
    /\ ChatRequest.messages request
       = buildContextMessages (DebateState.messages s) m
         ++ [ ContextMessage.mk user
                (getStagePrompt (DebateState.stage s) (DebateState.topic s)
                   (slice_last 5 (DebateState.messages s))
                   (findCurrentConsensus (DebateState.messages s))
                   (DebateState.round s)) ]
    /\ (List.length (ChatRequest.messages request) <= 6)%nat.
Proof.
  intros Hsel s m.
  rewrite (runTurn_selected _ _ _ _ resp Hsel).
  destruct Hsel as (_ & _ & _ & _ & _ & _ & Hnext).
  pose proof (getNextTurn_fields _ _ Hnext) as Hturn. simpl in Hturn.
  fold s in Hturn. fold m in Hturn.
  unfold executeTurn.
  pose proof (attempt_publishes resp) as Hpub.
  destruct (attempt resp) as [published outcome]; simpl in Hpub.
  eexists. split.
  - simpl. rewrite filter_app, (published_no_fetch _ Hpub). simpl.
    rewrite filter_app. simpl. rewrite app_nil_r.
    destruct outcome as [fullContent | e];
      [| destruct (isCredentialError _); [| destruct (_ <? _)]]; reflexivity.
  - fold s. fold m. rewrite Hturn. simpl.
    repeat split.
    rewrite length_app. simpl. unfold buildContextMessages.
    rewrite length_map.
    destruct (slice_last_suffix 5 (DebateState.messages s)) as (_ & _ & Hlen).
    rewrite Hlen. lia.
Qed.


(** ** Runs *)

(** What a tick is given: the two clock readings and the service's answer. *)
Definition TickInput : Set := (Z * Z * Response)%type.

Definition answer (i : TickInput) : Response := snd i.

(** Successive ticks. *)
Definition run (inputs : list TickInput) (v : ViewState) : ViewState :=
  fold_left (fun v i => tick_ (fst (fst i)) (snd (fst i)) (snd i) v) inputs v.

Definition fails (i : TickInput) : Prop :=
  exists e, outcome_of (answer i) = Failed e.

Definition succeeds (i : TickInput) : Prop :=
  exists fullContent, outcome_of (answer i) = Completed fullContent.

Lemma failed_turn_reselects (v : ViewState) (turn : TurnResult)
    (resp : Response) (now_id now_ts : Z) (e : Thrown) :
  selects_ v turn ->
  outcome_of resp = Failed e ->
  selects_ (tick_ now_id now_ts resp v) turn.
Proof.
  intros Hsel Hout.
  destruct (failed_turn_keeps_config getSystemPrompt getStagePrompt v turn resp
              now_id now_ts e Hsel Hout) as (Hcfg & Hp & Hc & Hr).
  destruct Hsel as (Hp0 & Hc0 & _ & Hcc & Hadv & Hsar & Hnext).
  unfold selects. rewrite Hcfg, Hp, Hc, Hr. now repeat split.
Qed.

(** X17: while the calls of the selected agent fail, the session does not
    move: after any number of ticks whose answers are failures, the stage,
    the round, the log, the topic and the participants are what they were
    and the scheduler still selects the same agent with the same directive.
    Neither the retry ceiling nor abstention ends the wait. *)
Theorem failing_agent_holds_the_session (v : ViewState) (turn : TurnResult)
    (inputs : list TickInput) :
  selects_ v turn ->
  Forall fails inputs ->
  config_of (ViewState.store (run inputs v)) = config_of (ViewState.store v)
  /\ selects_ (run inputs v) turn.
Proof.
  intros Hsel Hall. revert v Hsel.
  induction Hall as [| [[now_id now_ts] resp] inputs [e He] _ IH];
    intros v Hsel; [now split |].
  unfold run. simpl. fold (run inputs (tick_ now_id now_ts resp v)).
  simpl in He.
  destruct (IH _ (failed_turn_reselects v turn resp now_id now_ts e Hsel He))
    as [Hcfg Hsel'].
  split; [| assumption].
  rewrite Hcfg.
  now destruct (failed_turn_keeps_config getSystemPrompt getStagePrompt v turn
                  resp now_id now_ts e Hsel He).
Qed.

(** ** Completion *)

Lemma checkConsensus_floor (config : DebateConfig) :
  checkConsensus config = true ->
  DebateConfig.stage config = consensus /\ 3 <= DebateConfig.round config.
Proof.
  unfold checkConsensus, MIN_CONSENSUS_ROUND.
  destruct (DebateStage_eqb (DebateConfig.stage config) consensus) eqn:Hs;
    simpl; [| discriminate].
  apply DebateStage_eqb_eq in Hs.
  destruct (Z.ltb_spec (DebateConfig.round config) 3); [discriminate |].
  now split.
Qed.

Lemma store_after_turn_consensus (s : DebateState) (m : AIModel)
    (currentRetry now_id now_ts : Z) (outcome : Outcome) :
  DebateState.consensusReached
    (store_after_turn s m currentRetry now_id now_ts outcome)
  = DebateState.consensusReached s.
Proof.
  unfold store_after_turn.
  destruct outcome as [fullContent | e];
    [| destruct (isCredentialError _); [| destruct (_ <? _)]]; reflexivity.
Qed.

(** X18: a tick records consensus only on the detector's word: if the
    consensus flag is set after a tick and was not before, then before the
    tick the stage was consensus, the round at least 3 and [checkConsensus]
    held, and the tick has completed the session and moved it to [result].
    A session that runs out of consensus rounds is completed with the flag
    cleared. *)
Theorem consensus_is_recorded_on_detection (v : ViewState) (resp : Response)
    (now_id now_ts : Z) :
  let s := ViewState.store v in
  let s' := ViewState.store (tick_ now_id now_ts resp v) in
  (DebateState.consensusReached s' = true ->
   DebateState.consensusReached s = false ->
   DebateState.stage s = consensus
   /\ 3 <= DebateState.round s
   /\ checkConsensus (config_of s) = true
   /\ DebateState.isComplete s' = true
   /\ DebateState.stage s' = result)
  /\ (DebateState.isComplete s' = true ->
      DebateState.isComplete s = false ->
      DebateState.stage s' = result
      /\ DebateState.consensusReached s' = checkConsensus (config_of s)).
Proof.
  intros s s'. subst s s'.
  destruct (tick_step v resp now_id now_ts)
    as [ | | Hun Hcc | Hun Hcc Hadv Hnext | | | turn Hsel ]; simpl.
  1, 2, 5, 6: split; intros; congruence.
  - destruct (checkConsensus_floor _ Hcc) as [Hst Hrd]. simpl in Hst, Hrd.
    now repeat split.
  - split; [discriminate |]. intros _ _. now split.
  - rewrite store_after_turn_consensus.
    destruct (store_after_turn_frame (ViewState.store v)
                (TurnResult.model turn) (retries_of v (TurnResult.model turn))
                now_id now_ts (outcome_of resp))
      as (_ & _ & _ & _ & _ & Hcm & _).
    rewrite Hcm. split; intros; congruence.
Qed.


(** ** Termination *)

(** The rounds of a debate, numbered through the stages: position 0 and 1,
    cross-exam 2 to 5, common-ground 6 and 7, consensus 8 to 22. *)
Definition level (stage : DebateStage) (round : Z) : Z :=
  match stage with
  | position => round
  | cross_exam => 1 + round
  | common_ground => 5 + round
  | consensus => 7 + round
  | _ => 23
  end.

(** A bound on the ticks a session still needs when every call succeeds:
    one per turn still to be taken in the current round, and for every later
    round one per participant and one for the advance. *)
Definition ticks_left (s : DebateState) : Z :=
  if DebateState.isComplete s then 0
  else
    let n := Z.of_nat (List.length (DebateState.selectedModels s)) in
    let said :=
      Z.of_nat (List.length (stageMessages (DebateState.messages s)
                                           (DebateState.stage s)
                                           (DebateState.round s))) in
    1 + (22 - level (DebateState.stage s) (DebateState.round s)) * (n + 1)
      + (n - said).

Lemma guarded_tick_idles (v : ViewState) (resp : Response) (now_id now_ts : Z) :
  DebateState.isPaused (ViewState.store v)
  || DebateState.isComplete (ViewState.store v)
  || ViewState.isRunning v = true ->
  tick_ now_id now_ts resp v = v.
Proof. intro H. unfold tick, runTurn. now rewrite H. Qed.

Lemma tick_keeps_pause (v : ViewState) (resp : Response) (now_id now_ts : Z) :
  DebateState.isPaused (ViewState.store (tick_ now_id now_ts resp v))
  = DebateState.isPaused (ViewState.store v).
Proof.
  destruct (tick_step v resp now_id now_ts)
    as [ | | | | | | turn Hsel ]; try reflexivity.
  now destruct (store_after_turn_frame (ViewState.store v)
                  (TurnResult.model turn)
                  (retries_of v (TurnResult.model turn))
                  now_id now_ts (outcome_of resp))
    as (_ & _ & _ & _ & Hp & _).
Qed.

Lemma level_in_range (s : DebateState) :
  debate_stage (DebateState.stage s) = true ->
  round_floor (DebateState.stage s) (DebateState.round s) ->
  DebateState.round s <= maxRounds_of (DebateState.stage s) ->
  0 <= level (DebateState.stage s) (DebateState.round s) <= 22.
Proof.
  unfold maxRounds_of, round_floor, level.
  destruct (DebateState.stage s);
    cbn [debate_stage STAGE_CONFIG StageConfig.maxRounds];
    try discriminate; lia.
Qed.

Lemma tick_uses_a_tick (v : ViewState) (resp : Response) (now_id now_ts : Z)
                       (fullContent : string) :
  reachable_ v ->
  DebateState.isPaused (ViewState.store v) = false ->
  DebateState.isComplete (ViewState.store v) = false ->
  outcome_of resp = Completed fullContent ->
  ticks_left (ViewState.store (tick_ now_id now_ts resp v))
  < ticks_left (ViewState.store v).
Proof.
  intros Hreach Hp Hc Hout.
  pose proof (reachable_settled v Hreach) as (Hrun & _ & _ & Hopen & _).
  pose proof (reachable_well_formed _ _ v Hreach) as Hwf.
  destruct (Hopen Hc) as (Hstage & Hfloor & Hmax).
  pose proof (level_in_range _ Hstage Hfloor Hmax) as Hlevel.
  pose proof (said_le_participants _ (DebateState.stage (ViewState.store v))
                (DebateState.round (ViewState.store v)) Hwf) as Hsaid.
  assert (Hpos : 1 + (22 - level (DebateState.stage (ViewState.store v))
                                 (DebateState.round (ViewState.store v)))
                     * (Z.of_nat (List.length (DebateState.selectedModels
                                                 (ViewState.store v))) + 1)
                 <= ticks_left (ViewState.store v)).
  { unfold ticks_left. rewrite Hc. lia. }
  destruct (tick_step v resp now_id now_ts)
    as [ Hg | _ Hcc Hadv Hsar Hnone | _ _ | _ _ _ _ | _ _ Hadv Hnext
       | _ _ Hadv _ | turn Hsel ].
  - rewrite Hp, Hc, Hrun in Hg. discriminate.
  - exfalso. pose proof (no_turn_round_over _ Hnone Hstage) as Hall.
    apply (shouldAdvanceRound_all_spoke _ Hwf) in Hall. congruence.
  - unfold ticks_left at 1.
    cbn -[Z.add Z.sub Z.mul Z.of_nat level stageMessages]. nia.
  - unfold ticks_left at 1.
    cbn -[Z.add Z.sub Z.mul Z.of_nat level stageMessages]. nia.
  - rewrite shouldAdvanceStage_advance in Hadv. simpl in Hadv.
    apply Z.leb_le in Hadv.
    unfold ticks_left at 1.
    cbn -[Z.add Z.sub Z.mul Z.of_nat level stageMessages]. rewrite Hc.
    assert (Hnextlevel :
              level (getNextStage (DebateState.stage (ViewState.store v))) 1
              = level (DebateState.stage (ViewState.store v))
                      (DebateState.round (ViewState.store v)) + 1).
    { unfold maxRounds_of in Hadv, Hmax.
      rewrite getNextStage_table in Hnext |- *. unfold level.
      destruct (DebateState.stage (ViewState.store v));
        try discriminate Hstage;
        cbn [STAGE_CONFIG StageConfig.maxRounds] in Hadv, Hmax;
        lia. }
    rewrite Hnextlevel. nia.
  - unfold ticks_left at 1.
    cbn -[Z.add Z.sub Z.mul Z.of_nat level stageMessages]. rewrite Hc.
    assert (Hnextlevel :
              level (DebateState.stage (ViewState.store v))
                    (DebateState.round (ViewState.store v) + 1)
              = level (DebateState.stage (ViewState.store v))
                      (DebateState.round (ViewState.store v)) + 1).
    { unfold level.
      destruct (DebateState.stage (ViewState.store v));
        try discriminate Hstage; lia. }
    rewrite Hnextlevel. nia.
  - destruct (store_after_turn_frame (ViewState.store v)
                (TurnResult.model turn) (retries_of v (TurnResult.model turn))
                now_id now_ts (outcome_of resp))
      as (Hsm & _ & Hst & Hrd & _ & Hcm & Hmsg).
    unfold ticks_left. cbn [ViewState.store].
    rewrite Hcm, Hc, Hsm, Hst, Hrd, Hmsg, Hout.
    unfold stageMessages. rewrite filter_app, length_app. simpl.
    rewrite DebateStage_eqb_refl, Z.eqb_refl. simpl.
    fold (stageMessages (DebateState.messages (ViewState.store v))
                        (DebateState.stage (ViewState.store v))
                        (DebateState.round (ViewState.store v))).
    lia.
Qed.

Lemma run_reachable (inputs : list TickInput) (v : ViewState) :
  reachable_ v -> reachable_ (run inputs v).
Proof.
  revert v. induction inputs as [| i inputs IH]; intros v Hreach;
    [assumption |].
  apply IH. now apply reach_tick.
Qed.

(** X19: a debate whose calls all succeed ends.  From any state of a session
    that is not paused, a run of ticks whose answers all complete, at least
    [ticks_left] long, leaves the session complete; and [ticks_left] is never
    more than 23 ticks per participant plus 23. *)
Theorem session_ends_when_calls_succeed (v : ViewState)
    (inputs : list TickInput) :
  reachable_ v ->
  DebateState.isPaused (ViewState.store v) = false ->
  Forall succeeds inputs ->
  ticks_left (ViewState.store v) <= Z.of_nat (List.length inputs) ->
  DebateState.isComplete (ViewState.store (run inputs v)) = true
  /\ ticks_left (ViewState.store v)
     <= 23 * (Z.of_nat (List.length (DebateState.selectedModels
                                       (ViewState.store v))) + 1).
Proof.
  intros Hreach Hp Hall Hlen. split.
  - revert v Hreach Hp Hlen.
    induction Hall as [| [[now_id now_ts] resp] inputs [full Hfull] _ IH];
      intros v Hreach Hp Hlen.
    + simpl in *. unfold ticks_left in Hlen.
      destruct (DebateState.isComplete (ViewState.store v)) eqn:Hc;
        [reflexivity |].
      pose proof (reachable_settled v Hreach) as (_ & _ & _ & Hopen & _).
      destruct (Hopen Hc) as (Hstage & Hfloor & Hmax).
      pose proof (level_in_range _ Hstage Hfloor Hmax).
      pose proof (said_le_participants _
                    (DebateState.stage (ViewState.store v))
                    (DebateState.round (ViewState.store v))
                    (reachable_well_formed _ _ v Hreach)).
      nia.
    + unfold run. simpl. fold (run inputs (tick_ now_id now_ts resp v)).
      simpl in Hfull.
      apply IH.
      * now apply reach_tick.
      * now rewrite tick_keeps_pause.
      * destruct (DebateState.isComplete (ViewState.store v)) eqn:Hc.
        -- rewrite guarded_tick_idles
             by (rewrite Hc; now rewrite orb_true_r).
           unfold ticks_left. rewrite Hc. lia.
        -- pose proof (tick_uses_a_tick v resp now_id now_ts full Hreach Hp
                         Hc Hfull).
           cbn [List.length] in Hlen. rewrite Nat2Z.inj_succ in Hlen. lia.
  - unfold ticks_left.
    destruct (DebateState.isComplete (ViewState.store v)) eqn:Hc; [lia |].
    pose proof (reachable_settled v Hreach) as (_ & _ & _ & Hopen & _).
    destruct (Hopen Hc) as (Hstage & Hfloor & Hmax).
    pose proof (level_in_range _ Hstage Hfloor Hmax). nia.
Qed.


(** ** From the setup pages into the debate *)




End Coverage.

(** ** Instances on the two-party session *)

Definition run0 := run plainSystemPrompt plainStagePrompt.

Lemma gemini_refused_reachable :
  reachable plainSystemPrompt plainStagePrompt gemini_refused.
Proof. apply reach_tick, gpt_spoke_reachable. Qed.

Lemma two_party_distinct :
  NoDup (DebateState.selectedModels (ViewState.store two_party_start)).
Proof. apply two_party_start_begins. Qed.

(** Adding claude to gpt and gemini puts it last. *)
Lemma X1_claude_joins_last :
  DebateState.selectedModels
    (Store.toggleModel claude (ViewState.store two_party_start))
  = [gpt; gemini; claude].
Proof.
  apply (toggleModel_flips_membership claude (ViewState.store two_party_start)
           two_party_distinct).
  simpl. intuition discriminate.
Defined.

Definition agreed_config : DebateConfig :=
  DebateConfig.mk [gpt; gemini] "tabs or spaces"
    [ Message.mk "gpt-1" gpt "[CONSENSUS] Spaces." consensus 3 1;
      Message.mk "gemini-2" gemini "[CONSENSUS] Spaces." consensus 3 2 ]
    consensus 3.

Lemma agreed_config_everyone_spoke :
  forall m, In m (DebateConfig.selectedModels agreed_config) ->
    exists u, In u (DebateConfig.messages agreed_config)
              /\ Message.stage u = consensus /\ Message.model u = m.
Proof.
  intros m [<- | [<- | []]].
  - exists (Message.mk "gpt-1" gpt "[CONSENSUS] Spaces." consensus 3 1).
    simpl. auto.
  - exists (Message.mk "gemini-2" gemini "[CONSENSUS] Spaces." consensus 3 2).
    simpl. auto.
Qed.

(** Two marked utterances at round 3 of the consensus stage. *)
Lemma X4_both_marked :
  checkConsensus agreed_config = true.
Proof.
  apply (no_open_proposal_is_consensus agreed_config eq_refl eq_refl).
  - discriminate.
  - exact agreed_config_everyone_spoke.
Defined.

(** After gemini's refused key the session is at rest. *)
Lemma X8_refused_session_at_rest :
  ViewState.isRunning gemini_refused = false.
Proof.
  apply (session_shape plainSystemPrompt plainStagePrompt gemini_refused
           gemini_refused_reachable).
Defined.

(** gpt's position was taken in round 0. *)
Lemma X9_position_in_round_zero :
  Message.round (Message.mk "gpt-1000" gpt "Tabs." position 0 1000) = 0.
Proof.
  apply (utterances_within_stage_rounds plainSystemPrompt plainStagePrompt
           gpt_spoke (Message.mk "gpt-1000" gpt "Tabs." position 0 1000)
           gpt_spoke_reachable (or_introl eq_refl)).
Defined.

Lemma X10_refused_retry_in_range :
  0 <= retries_of gemini_refused gemini <= 3.
Proof.
  exact (retry_counter_bounded plainSystemPrompt plainStagePrompt
           gemini_refused gemini gemini_refused_reachable).
Defined.

Lemma X12_after_gpt_the_tick_acts :
  completes (runTurn plainSystemPrompt plainStagePrompt gpt_spoke outage)
  \/ advances_stage (runTurn plainSystemPrompt plainStagePrompt gpt_spoke outage)
  \/ advances_round (runTurn plainSystemPrompt plainStagePrompt gpt_spoke outage)
  \/ produces_turn (runTurn plainSystemPrompt plainStagePrompt gpt_spoke outage).
Proof.
  exact (armed_tick_acts plainSystemPrompt plainStagePrompt gpt_spoke outage
           gpt_spoke_reachable eq_refl).
Defined.

Lemma X13_positions_in_order :
  speakers (DebateState.messages (ViewState.store both_spoke)) position 0
  = firstn (List.length
              (speakers (DebateState.messages (ViewState.store both_spoke))
                        position 0))
           (DebateState.selectedModels (ViewState.store both_spoke)).
Proof.
  exact (speech_follows_participant_order plainSystemPrompt plainStagePrompt
           both_spoke position 0 both_spoke_reachable).
Defined.

Lemma X14_one_of_two :
  0 <= StageProgress.current
         (getStageProgress (config_of (ViewState.store gpt_spoke)))
    <= StageProgress.max
         (getStageProgress (config_of (ViewState.store gpt_spoke))).
Proof.
  apply (stage_progress_is_sound plainSystemPrompt plainStagePrompt gpt_spoke
           gpt_spoke_reachable).
Defined.

(** Five Hangul syllables, fifteen bytes, are charged two tokens. *)
Lemma X15_five_code_units_two_tokens :
  totalTokens
    (ViewState.store (tick0 1000 1000 (say "안녕하세요") two_party_start))
  = totalTokens (ViewState.store two_party_start) + 2.
Proof.
  apply (token_counter_charges_the_turn plainSystemPrompt plainStagePrompt
           two_party_start opening_turn (say "안녕하세요") 1000 1000
           (reach_start _ _ _ two_party_start_begins) opening_turn_selected).
Defined.

Lemma X16_request_for_gemini :
  exists request,
    filter is_fetch
           (runTurn plainSystemPrompt plainStagePrompt gpt_spoke outage)
    = [Fetch request]
    /\ ChatRequest.model request = gemini
    /\ ChatRequest.apiKey request = "k2"
    /\ ChatRequest.systemPrompt request = "system"
    /\ ChatRequest.messages request
       = [ ContextMessage.mk user "[GPT]: Tabs.";
           ContextMessage.mk user "tabs or spaces" ]
    /\ (List.length (ChatRequest.messages request) <= 6)%nat.
Proof.
  exact (turn_request plainSystemPrompt plainStagePrompt gpt_spoke gemini_turn
           outage gemini_turn_selected).
Defined.

Definition three_failures : list TickInput :=
  [ (1001, 1001, bad_key); (1002, 1002, outage); (1003, 1003, outage) ].

Lemma three_failures_fail : Forall fails three_failures.
Proof. repeat constructor; eexists; reflexivity. Qed.

Lemma X17_three_failures_later :
  config_of (ViewState.store (run0 three_failures gpt_spoke))
  = config_of (ViewState.store gpt_spoke)
  /\ selects plainSystemPrompt plainStagePrompt
             (run0 three_failures gpt_spoke) gemini_turn.
Proof.
  exact (failing_agent_holds_the_session plainSystemPrompt plainStagePrompt
           gpt_spoke gemini_turn three_failures gemini_turn_selected
           three_failures_fail).
Defined.

Definition sixty_nine_answers : list TickInput :=
  repeat (0, 0, say "Agreed.") 69.

Lemma sixty_nine_answers_succeed : Forall succeeds sixty_nine_answers.
Proof.
  apply Forall_forall. intros i Hi. apply repeat_spec in Hi. subst i.
  eexists. reflexivity.
Qed.

Lemma X19_two_party_debate_ends :
  DebateState.isComplete
    (ViewState.store (run0 sixty_nine_answers two_party_start)) = true.
Proof.
  apply (session_ends_when_calls_succeed plainSystemPrompt plainStagePrompt
           two_party_start sixty_nine_answers
           (reach_start _ _ _ two_party_start_begins) eq_refl
           sixty_nine_answers_succeed).
  vm_compute. discriminate.
Defined.





(* ------------------------------------------------------------------ *)
(** ** app/api/summarize/route.ts and its caller in ResultSummary *)

Definition newline : string := String (ascii_of_nat 10) "".

(** [parts.join(sep)] *)
Fixpoint join (sep : string) (parts : list string) : string :=
  match parts with
  | [] => ""
  | [p] => p
  | p :: rest => (p ++ sep ++ join sep rest)%string
  end.

Definition MODEL_NAMES (m : AIModel) : string :=
  match m with gpt => "GPT" | claude => "Claude" | gemini => "Gemini" end.

(** The text of the last five utterances handed to the summarizer. *)
Definition messagesText (messages : list Message) : string :=
  let recentMessages := slice_last 5 messages in
  join (newline ++ newline ++ "---" ++ newline ++ newline)%string
       (map (fun m => ("[" ++ MODEL_NAMES (Message.model m) ++ "]" ++ newline
                       ++ Message.content m)%string)
            recentMessages).

(** ResultSummary's [apiKeys]: the keys of the store that are not empty. *)
Definition collectApiKeys (aiStates : PerModel.t AIState)
  : PerModel.t (option string) :=
  fold_left
    (fun apiKeys model =>
       if truthy (Some (AIState.apiKey (PerModel.get aiStates model)))
       then PerModel.set apiKeys model
              (Some (AIState.apiKey (PerModel.get aiStates model)))
       else apiKeys)
    [claude; gpt; gemini]
    (PerModel.mk None None None).

Inductive SummarizeResponse : Set :=
| Summarized (summary : string) (model : AIModel)
| NoKeyAvailable.   (* status 400 *)

Section Summarize.

(** The three provider calls, [summarizeWithClaude], [summarizeWithGPT] and
    [summarizeWithGemini], taken as given: the summary, or nothing when the
    call throws. *)
Variable summarizeWith : AIModel -> string -> string -> string -> option string.

(** The loop over [modelPriority], with the models it called, in order. *)
Fixpoint trySummarize (modelPriority : list AIModel) (topic text : string)
                      (apiKeys : PerModel.t (option string))
  : list AIModel * SummarizeResponse :=
  match modelPriority with
  | [] => ([], NoKeyAvailable)
  | model :: rest =>
      match PerModel.get apiKeys model with
      | Some apiKey =>
          if truthy (Some apiKey) then
            match summarizeWith model topic text apiKey with
            | Some summary => ([model], Summarized summary model)
            | None =>
                let '(called, response) := trySummarize rest topic text apiKeys in
                (model :: called, response)
            end
          else trySummarize rest topic text apiKeys
      | None => trySummarize rest topic text apiKeys
      end
  end.

(** [POST] on a well-formed body. *)
Definition summarize (topic : string) (messages : list Message)
                     (apiKeys : PerModel.t (option string))
  : list AIModel * SummarizeResponse :=
  trySummarize [claude; gpt; gemini] topic (messagesText messages) apiKeys.

Lemma collectApiKeys_get (aiStates : PerModel.t AIState) (m : AIModel) :
  PerModel.get (collectApiKeys aiStates) m
  = if truthy (Some (AIState.apiKey (PerModel.get aiStates m)))
    then Some (AIState.apiKey (PerModel.get aiStates m))
    else None.
Proof.
  unfold collectApiKeys. simpl.
  destruct aiStates as [[? ? k1 ?] [? ? k2 ?] [? ? k3 ?]]. simpl.
  destruct m, k1, k2, k3; reflexivity.
Qed.

(** The call made for [m] with the key of the store. *)
Definition call_of (s : DebateState) (m : AIModel) : option string :=
  summarizeWith m (DebateState.topic s) (messagesText (DebateState.messages s))
                (AIState.apiKey (PerModel.get (DebateState.aiStates s) m)).

Definition has_key (s : DebateState) (m : AIModel) : bool :=
  truthy (Some (AIState.apiKey (PerModel.get (DebateState.aiStates s) m))).

Lemma trySummarize_spec (s : DebateState) (priority : list AIModel) :
  let '(called, response) :=
    trySummarize priority (DebateState.topic s)
                 (messagesText (DebateState.messages s))
                 (collectApiKeys (DebateState.aiStates s)) in
  match response with
  | Summarized summary model =>
      exists before later,
        priority = before ++ model :: later
        /\ has_key s model = true
        /\ call_of s model = Some summary
        /\ (forall m, In m before -> has_key s m = false \/ call_of s m = None)
        /\ called = filter (has_key s) before ++ [model]
  | NoKeyAvailable =>
      (forall m, In m priority -> has_key s m = false \/ call_of s m = None)
      /\ called = filter (has_key s) priority
  end.
Proof.
  induction priority as [| model rest IH]; simpl.
  - split; [intros ? [] | reflexivity].
  - rewrite collectApiKeys_get. fold (has_key s model).
    destruct (has_key s model) eqn:Hkey.
    + cbn iota. pose proof Hkey as Hkey'. unfold has_key in Hkey'.
      cbn [truthy] in Hkey'. rewrite Hkey'. fold (call_of s model).
      destruct (call_of s model) as [summary |] eqn:Hcall.
      * exists [], rest. repeat split; try assumption. intros ? [].
      * destruct (trySummarize rest _ _ _) as [called response].
        destruct response as [summary winner |].
        -- destruct IH as (before & later & -> & Hk & Hc & Hbefore & ->).
           exists (model :: before), later. simpl.
           fold (has_key s model). rewrite Hkey.
           repeat split; try assumption.
           intros m [<- | Hm]; [now right | now apply Hbefore].
        -- destruct IH as [Hall ->]. split; [| reflexivity].
           intros m [<- | Hm]; [now right | now apply Hall].
    + destruct (trySummarize rest _ _ _) as [called response].
      destruct response as [summary winner |].
      * destruct IH as (before & later & -> & Hk & Hc & Hbefore & ->).
        exists (model :: before), later. simpl. rewrite Hkey.
        repeat split; try assumption.
        intros m [<- | Hm]; [now left | now apply Hbefore].
      * destruct IH as [Hall ->]. split; [| reflexivity].
        intros m [<- | Hm]; [now left | now apply Hall].
Qed.

(** X21: the summary of a debate.  With the keys ResultSummary collects from
    the store, the route calls only providers whose key is not empty, in the
    order Claude, GPT, Gemini, each with the topic and the text of the last
    five utterances, and stops at the first call that succeeds: the summary
    returned is that call's and is credited to that model, every provider
    before it had no key or failed; the answer is the 400 error exactly when
    every provider has no key or fails. *)
Theorem summary_by_first_usable_provider (s : DebateState) :
  let '(called, response) :=
    summarize (DebateState.topic s) (DebateState.messages s)
              (collectApiKeys (DebateState.aiStates s)) in
  match response with
  | Summarized summary model =>
      exists before later,
        [claude; gpt; gemini] = before ++ model :: later
        /\ has_key s model = true
        /\ call_of s model = Some summary
        /\ (forall m, In m before -> has_key s m = false \/ call_of s m = None)
        /\ called = filter (has_key s) before ++ [model]
  | NoKeyAvailable =>
      (forall m, has_key s m = false \/ call_of s m = None)
      /\ called = filter (has_key s) [claude; gpt; gemini]
  end.
Proof.
  unfold summarize.
  pose proof (trySummarize_spec s [claude; gpt; gemini]) as H.
  destruct (trySummarize _ _ _ _) as [called response].
  destruct response as [summary model |]; [exact H |].
  destruct H as [Hall Hcalled]. split; [| exact Hcalled].
  intro m. apply Hall. destruct m; simpl; auto.
Qed.

End Summarize.
